(** * Image manager: collection store and annotation store

    A shallow embedding of the two page components of the repository,
    [src/next.js] (module [Next]) and [src/unnamed/part_000] (module
    [Part000]), together with the parts of the platform they call:
    [JSON.stringify] / [JSON.parse] (module [Json]), [localStorage] (a finite
    map from keys to strings) and the mutation and retry protocol of the query
    library (modules [Mutation] and [Retryer]).

    The coordinates of an annotation are JavaScript numbers, modelled by
    [number]: the finite doubles, printed by [toString] as
    [Number.prototype.toString] prints them and read by [of_decimal] as
    [JSON.parse] reads a literal.  Image ids, counters and the clock are
    whole numbers, modelled by [Z] and [N].  JavaScript strings are modelled
    by [string], a sequence of 8-bit characters (UTF-8 text). *)

From Stdlib Require Import ZArith NArith List Ascii String Lia.
From Stdlib Require Import Decimal DecimalString DecimalFacts DecimalN.
From stdpp Require Import gmap strings.

Local Open Scope Z_scope.

#[local] Set Warnings "-register-all".

(** ** Characters used by the JSON grammar *)

Definition dquote : ascii := Eval cbv in ascii_of_nat 34.
Definition backslash : ascii := Eval cbv in ascii_of_nat 92.

Definition is_ws (c : ascii) : bool :=
  (Ascii.eqb c " " || Ascii.eqb c (ascii_of_nat 9)
   || Ascii.eqb c (ascii_of_nat 10) || Ascii.eqb c (ascii_of_nat 13))%bool.

Definition is_digit (c : ascii) : bool :=
  (48 <=? nat_of_ascii c)%nat && (nat_of_ascii c <=? 57)%nat.

(** ** JavaScript numbers *)

Definition show_N (n : N) : string := NilEmpty.string_of_uint (N.to_uint n).

(** [Number::toString] on an integer that is printed with all its digits. *)
Definition show_Z (z : Z) : string :=
  match z with
  | Z0 => "0"
  | Zpos p => show_N (Npos p)
  | Zneg p => String "-" (show_N (Npos p))
  end.

Definition digit_value (c : ascii) : N := N.of_nat (nat_of_ascii c - 48).

(** The number a run of decimal digits denotes, after the digits [acc]. *)
Fixpoint digits_from (acc : N) (ds : string) : N :=
  match ds with
  | EmptyString => acc
  | String c r => digits_from (acc * 10 + digit_value c) r
  end.

Definition digits_value (ds : string) : N := digits_from 0 ds.

(** Every finite double is a whole multiple of [2 ^ -1074], the smallest
    positive one.  A [number] is a finite double given by that multiple:
    [units x] is [x * 2 ^ 1074].  The two zeros are one number, which is how
    [JSON.stringify] prints them; [NaN] and the infinities, which it prints
    as [null], are no [number]. *)
Record number : Type := { units : Z }.

(** [1] in units, and [2 ^ 1024], the least magnitude beyond the doubles. *)
Definition scale : Z := Eval vm_compute in 2 ^ 1074.
Definition overflow : Z := Eval vm_compute in 2 ^ 2098.

(** An integer of the source text, such as [60]. *)
Definition of_Z (z : Z) : number := {| units := z * scale |}.
Coercion of_Z : Z >-> number.

(** The multiples that are doubles: below [2 ^ 1024] in magnitude, and with
    a significand of at most 53 bits. *)
Definition is_double (x : number) : bool :=
  let a := Z.abs (units x) in
  (a <? overflow) && ((Z.log2 a <=? 52) || (a mod 2 ^ (Z.log2 a - 52) =? 0)).

(** The integer nearest to [a / b], the even one of two that are equally
    near. *)
Definition round_half_even (a b : Z) : Z :=
  let '(q, r) := Z.div_eucl a b in
  if 2 * r <? b then q
  else if b <? 2 * r then q + 1
  else if Z.even q then q else q + 1.

(** The double nearest to [a / b] units, for [0 <= a] and [0 < b]: doubles
    of [2 ^ 53] units and more are [2 ^ s] units apart, where [s] is 52 less
    than the position of their leading bit; the smaller ones are one unit
    apart.  [None] when that is [2 ^ 1024] or more, which JavaScript reads as
    [Infinity]. *)
Definition nearest (a b : Z) : option Z :=
  let s := Z.log2 (a / b) - 52 in
  let u :=
    if s <=? 0 then round_half_even a b
    else round_half_even a (b * 2 ^ s) * 2 ^ s in
  if u <? overflow then Some u else None.

(** The double nearest to [m * 10 ^ e], in units.  The first three cases
    spare the arithmetic on exponents far outside the doubles. *)
Definition of_decimal (m : N) (e : Z) : option Z :=
  if (m =? 0)%N then Some 0
  else if 400 <? e then None
  else if e <? - Z.log2 (Z.of_N m) - 2000 then Some 0
  else if 0 <=? e then nearest (Z.of_N m * 10 ^ e * scale) 1
  else nearest (Z.of_N m * scale) (10 ^ (- e)).

(** [magnitude_up fuel w a e], where [w = 10 ^ e * scale <= a]: the largest
    [e'] with [10 ^ e' * scale <= a]. *)
Fixpoint magnitude_up (fuel : nat) (w a e : Z) : Z :=
  match fuel with
  | O => e
  | S fuel' =>
      if w * 10 <=? a then magnitude_up fuel' (w * 10) a (e + 1) else e
  end.

(** [magnitude_down fuel w e], where [w = a * 10 ^ (- e) < scale]: the
    largest [e'] with [scale <= a * 10 ^ (- e')]. *)
Fixpoint magnitude_down (fuel : nat) (w e : Z) : Z :=
  match fuel with
  | O => e
  | S fuel' =>
      if scale <=? w * 10 then e - 1 else magnitude_down fuel' (w * 10) (e - 1)
  end.

(** The largest [e] with [10 ^ e <= a / scale], for [a] units, [0 < a]. *)
Definition magnitude (a : Z) : Z :=
  if scale <=? a then magnitude_up 400 scale a 0 else magnitude_down 400 a 0.

(** The two decimals of [k] digits next to [a] units, the nearer one first
    (of two equally near, the even one), each as digits and the exponent of
    its last digit; [n] is [magnitude a + 1]. *)
Definition candidates (a n k : Z) : list (N * Z) :=
  let p := n - k in
  let '(num, den) :=
    if 0 <=? p then (a, scale * 10 ^ p) else (a * 10 ^ (- p), scale) in
  let '(lo, r) := Z.div_eucl num den in
  let below := (Z.to_N lo, p) in
  let above :=
    if lo + 1 =? 10 ^ k then (1%N, p + k) else (Z.to_N (lo + 1), p) in
  if (2 * r <? den) || ((2 * r =? den) && Z.even lo)
  then [below; above] else [above; below].

(** The decimal [c] denotes the double [a]: that double is the nearest. *)
Definition reads_back (a : Z) (c : N * Z) : bool :=
  match of_decimal (fst c) (snd c) with
  | Some u => u =? a
  | None => false
  end.

(** The first decimal that denotes [a] among those of [k] digits, then of
    [k + 1] digits, and so on. *)
Fixpoint shortest (fuel : nat) (a n k : Z) : option (N * Z) :=
  match fuel with
  | O => None
  | S fuel' =>
      match List.find (reads_back a) (candidates a n k) with
      | Some c => Some c
      | None => shortest fuel' a n (k + 1)
      end
  end.

(** The digits [Number::toString] prints for [a] units, [0 < a]: the fewest
    that denote [a], which are never more than 17.  The last case, the full
    decimal expansion of [a], keeps the function total. *)
Definition digits_of (a : Z) : N * Z :=
  match shortest 17 a (magnitude a + 1) 1 with
  | Some c => c
  | None => (Z.to_N (a * 5 ^ 1074), -1074)
  end.

Fixpoint zeros (n : nat) : string :=
  match n with
  | O => EmptyString
  | S n' => String "0" (zeros n')
  end.

(** The first [n] characters of a string, and the others. *)
Fixpoint split_at (n : nat) (s : string) : string * string :=
  match n, s with
  | S n', String c r => let '(a, b) := split_at n' r in (String c a, b)
  | _, _ => (EmptyString, s)
  end.

(** The text of the decimal with digits [ds] whose last digit has exponent
    [p], as [Number::toString] lays it out: [n] is the position of the
    decimal point after the first digit's place. *)
Definition format (ds : string) (p : Z) : string :=
  let k := Z.of_nat (String.length ds) in
  let n := p + k in
  if (k <=? n) && (n <=? 21) then ds +:+ zeros (Z.to_nat (n - k))
  else if (0 <? n) && (n <=? 21) then
    let '(int_part, frac) := split_at (Z.to_nat n) ds in
    int_part +:+ String "." frac
  else if (-6 <? n) && (n <=? 0) then
    String "0" (String "." (zeros (Z.to_nat (- n)) +:+ ds))
  else
    let mantissa :=
      match ds with
      | String d (String _ _ as rest) => String d (String "." rest)
      | _ => ds
      end in
    mantissa +:+
    String "e"
      ((if 0 <=? n - 1 then "+" else "-") +:+ show_N (Z.abs_N (n - 1))).

(** [Number::toString]. *)
Definition toString (x : number) : string :=
  let u := units x in
  if u =? 0 then "0"
  else
    let '(m, p) := digits_of (Z.abs u) in
    (if u <? 0 then "-" else "") +:+ format (show_N m) p.

(** ** JSON values, [JSON.stringify] and [JSON.parse] *)

Module Json.

(** A JavaScript value as [JSON.parse] gives it and [JSON.stringify] takes
    it.  [JInfinity] is what a number literal of magnitude [2 ^ 1024] or
    more is read as. *)
Inductive json : Type :=
| JNull
| JBool (b : bool)
| JNum (x : number)
| JInfinity (negative : bool)
| JStr (s : string)
| JArr (items : list json)
| JObj (members : list (string * json)).

(** *** Printing *)

Definition hex_digit (n : nat) : ascii :=
  if (n <? 10)%nat then ascii_of_nat (48 + n) else ascii_of_nat (87 + n).

(** [QuoteJSONString] on one character: the two-character escapes, [\u00xx]
    for the other control characters, the character itself otherwise. *)
Definition escape_char (c : ascii) : string :=
  let n := nat_of_ascii c in
  if Ascii.eqb c dquote then String backslash (String dquote "")
  else if Ascii.eqb c backslash then String backslash (String backslash "")
  else if (n =? 8)%nat then String backslash "b"
  else if (n =? 12)%nat then String backslash "f"
  else if (n =? 10)%nat then String backslash "n"
  else if (n =? 13)%nat then String backslash "r"
  else if (n =? 9)%nat then String backslash "t"
  else if (n <? 32)%nat then
    String backslash
      (String "u" (String "0" (String "0"
         (String (hex_digit (n / 16)) (String (hex_digit (n mod 16)) "")))))
  else String c "".

Fixpoint escape (s : string) : string :=
  match s with
  | EmptyString => EmptyString
  | String c r => escape_char c +:+ escape r
  end.

Definition quote (s : string) : string :=
  String dquote (escape s +:+ String dquote "").

(** The texts of a list, separated by [sep]. *)
Fixpoint join (sep : ascii) (l : list string) : string :=
  match l with
  | [] => EmptyString
  | [t] => t
  | t :: rest => t +:+ String sep (join sep rest)
  end.

(** [JSON.stringify] without indentation: no white space is written. *)
Fixpoint stringify (j : json) : string :=
  match j with
  | JNull => "null"
  | JBool true => "true"
  | JBool false => "false"
  | JNum x => toString x
  | JInfinity _ => "null"
  | JStr s => quote s
  | JArr items => String "[" (join "," (List.map stringify items) +:+ "]")
  | JObj members =>
      String "{"
        (join ","
           (List.map
              (fun m => quote (fst m) +:+ String ":" (stringify (snd m)))
              members)
         +:+ "}")
  end.

(** *** Parsing *)

Fixpoint skip_ws (s : string) : string :=
  match s with
  | EmptyString => EmptyString
  | String c r => if is_ws c then skip_ws r else s
  end.

(** The longest prefix of decimal digits, and what follows it. *)
Fixpoint span_digits (s : string) : string * string :=
  match s with
  | EmptyString => (EmptyString, EmptyString)
  | String c r =>
      if is_digit c
      then let '(ds, rest) := span_digits r in (String c ds, rest)
      else (EmptyString, s)
  end.

Definition hex_value (c : ascii) : option N :=
  let n := nat_of_ascii c in
  if ((48 <=? n) && (n <=? 57))%nat then Some (N.of_nat (n - 48))
  else if ((97 <=? n) && (n <=? 102))%nat then Some (N.of_nat (n - 87))
  else if ((65 <=? n) && (n <=? 70))%nat then Some (N.of_nat (n - 55))
  else None.

Definition hex4 (a b c d : ascii) : option N :=
  match hex_value a, hex_value b, hex_value c, hex_value d with
  | Some x, Some y, Some z, Some w => Some (((x * 16 + y) * 16 + z) * 16 + w)%N
  | _, _, _, _ => None
  end.

(** The UTF-8 bytes of a code unit written as [\uXXXX]. *)
Definition utf8 (n : N) (k : string) : string :=
  if (n <? 128)%N then String (ascii_of_N n) k
  else if (n <? 2048)%N then
    String (ascii_of_N (192 + n / 64)) (String (ascii_of_N (128 + n mod 64)) k)
  else
    String (ascii_of_N (224 + n / 4096))
      (String (ascii_of_N (128 + (n / 64) mod 64))
         (String (ascii_of_N (128 + n mod 64)) k)).

Definition simple_escape (e : ascii) : option ascii :=
  if Ascii.eqb e dquote then Some dquote
  else if Ascii.eqb e backslash then Some backslash
  else if Ascii.eqb e "/" then Some "/"%char
  else if Ascii.eqb e "b" then Some (ascii_of_nat 8)
  else if Ascii.eqb e "f" then Some (ascii_of_nat 12)
  else if Ascii.eqb e "n" then Some (ascii_of_nat 10)
  else if Ascii.eqb e "r" then Some (ascii_of_nat 13)
  else if Ascii.eqb e "t" then Some (ascii_of_nat 9)
  else None.

(** The characters of a string literal after its opening quote, up to and
    including the closing quote; [None] on an unterminated literal, a raw
    control character or a bad escape. *)
Fixpoint scan_string (s : string) : option (string * string) :=
  match s with
  | EmptyString => None
  | String c r =>
      if Ascii.eqb c dquote then Some (EmptyString, r)
      else if Ascii.eqb c backslash then
        match r with
        | EmptyString => None
        | String e r1 =>
            if Ascii.eqb e "u" then
              match r1 with
              | String h1 (String h2 (String h3 (String h4 r2))) =>
                  match hex4 h1 h2 h3 h4, scan_string r2 with
                  | Some n, Some (t, rest) => Some (utf8 n t, rest)
                  | _, _ => None
                  end
              | _ => None
              end
            else
              match simple_escape e, scan_string r1 with
              | Some d, Some (t, rest) => Some (String d t, rest)
              | _, _ => None
              end
        end
      else if (nat_of_ascii c <? 32)%nat then None
      else
        match scan_string r with
        | Some (t, rest) => Some (String c t, rest)
        | None => None
        end
  end.

(** The digits of the optional fraction of a number, without the point:
    [Some ("", s)] when there is none. *)
Definition scan_fraction (s : string) : option (string * string) :=
  match s with
  | String c r =>
      if Ascii.eqb c "." then
        match span_digits r with
        | (EmptyString, _) => None
        | (fs, rest) => Some (fs, rest)
        end
      else Some (EmptyString, s)
  | EmptyString => Some (EmptyString, s)
  end.

(** The optional exponent of a number: [Some (0, s)] when there is none. *)
Definition scan_exponent (s : string) : option (Z * string) :=
  match s with
  | String c r =>
      if (Ascii.eqb c "e" || Ascii.eqb c "E")%bool then
        let '(negative, r1) :=
          match r with
          | String g r' =>
              if Ascii.eqb g "+" then (false, r')
              else if Ascii.eqb g "-" then (true, r')
              else (false, r)
          | EmptyString => (false, r)
          end in
        match span_digits r1 with
        | (EmptyString, _) => None
        | (es, rest) =>
            Some (if negative then - Z.of_N (digits_value es)
                  else Z.of_N (digits_value es), rest)
        end
      else Some (0, s)
  | EmptyString => Some (0, s)
  end.

(** The value of a number literal with digits [m] and exponent [e]. *)
Definition number_value (negative : bool) (m : N) (e : Z) : json :=
  match of_decimal m e with
  | Some u => JNum {| units := if negative then - u else u |}
  | None => JInfinity negative
  end.

(** A number: optional minus, an integer part without a leading zero, optional
    fraction and exponent. *)
Definition scan_number (s : string) : option (json * string) :=
  let '(negative, s1) :=
    match s with
    | String c r => if Ascii.eqb c "-" then (true, r) else (false, s)
    | EmptyString => (false, s)
    end in
  match span_digits s1 with
  | (EmptyString, _) => None
  | (String lead ds as int_part, s2) =>
      if (Ascii.eqb lead "0" && negb (String.eqb ds ""))%bool then None
      else
        match scan_fraction s2 with
        | None => None
        | Some (frac, s3) =>
            match scan_exponent s3 with
            | None => None
            | Some (e, s4) =>
                Some (number_value negative
                        (digits_value (int_part +:+ frac))
                        (e - Z.of_nat (String.length frac)), s4)
            end
        end
  end.

(** [expect w s]: [s] without its prefix [w], if it has that prefix. *)
Fixpoint expect (w s : string) : option string :=
  match w with
  | EmptyString => Some s
  | String c w' =>
      match s with
      | String c' s' => if Ascii.eqb c c' then expect w' s' else None
      | EmptyString => None
      end
  end.

(** Recursive descent over the JSON grammar.  [fuel] bounds the number of
    nested and successive values; [parse] below supplies the length of the
    text, which is enough for every text ([parse_fuel_adequate]). *)
Fixpoint parse_value (fuel : nat) (s : string) {struct fuel}
  : option (json * string) :=
  match fuel with
  | O => None
  | S fuel' =>
      match skip_ws s with
      | EmptyString => None
      | String c r =>
          if Ascii.eqb c "[" then
            match skip_ws r with
            | String c2 r2 =>
                if Ascii.eqb c2 "]" then Some (JArr [], r2)
                else
                  match parse_elements fuel' r with
                  | Some (vs, rest) => Some (JArr vs, rest)
                  | None => None
                  end
            | EmptyString => None
            end
          else if Ascii.eqb c "{" then
            match skip_ws r with
            | String c2 r2 =>
                if Ascii.eqb c2 "}" then Some (JObj [], r2)
                else
                  match parse_members fuel' r with
                  | Some (ms, rest) => Some (JObj ms, rest)
                  | None => None
                  end
            | EmptyString => None
            end
          else if Ascii.eqb c dquote then
            match scan_string r with
            | Some (t, rest) => Some (JStr t, rest)
            | None => None
            end
          else if Ascii.eqb c "t" then
            option_map (pair (JBool true)) (expect "rue" r)
          else if Ascii.eqb c "f" then
            option_map (pair (JBool false)) (expect "alse" r)
          else if Ascii.eqb c "n" then
            option_map (pair JNull) (expect "ull" r)
          else scan_number (String c r)
      end
  end

with parse_elements (fuel : nat) (s : string) {struct fuel}
  : option (list json * string) :=
  match fuel with
  | O => None
  | S fuel' =>
      match parse_value fuel' s with
      | None => None
      | Some (v, r) =>
          match skip_ws r with
          | String c r' =>
              if Ascii.eqb c "," then
                match parse_elements fuel' r' with
                | Some (vs, rest) => Some (v :: vs, rest)
                | None => None
                end
              else if Ascii.eqb c "]" then Some ([v], r')
              else None
          | EmptyString => None
          end
      end
  end

with parse_members (fuel : nat) (s : string) {struct fuel}
  : option (list (string * json) * string) :=
  match fuel with
  | O => None
  | S fuel' =>
      match skip_ws s with
      | String q r =>
          if Ascii.eqb q dquote then
            match scan_string r with
            | None => None
            | Some (k, r1) =>
                match skip_ws r1 with
                | String c1 r2 =>
                    if Ascii.eqb c1 ":" then
                      match parse_value fuel' r2 with
                      | None => None
                      | Some (v, r3) =>
                          match skip_ws r3 with
                          | String c3 r4 =>
                              if Ascii.eqb c3 "," then
                                match parse_members fuel' r4 with
                                | Some (ms, rest) => Some ((k, v) :: ms, rest)
                                | None => None
                                end
                              else if Ascii.eqb c3 "}" then Some ([(k, v)], r4)
                              else None
                          | EmptyString => None
                          end
                      end
                    else None
                | EmptyString => None
                end
            end
          else None
      | EmptyString => None
      end
  end.

(** [JSON.parse]: one value, then only white space.  [None] stands for the
    [SyntaxError] that [JSON.parse] throws. *)
Definition parse (s : string) : option json :=
  match parse_value (S (String.length s)) s with
  | Some (v, rest) =>
      match skip_ws rest with
      | EmptyString => Some v
      | String _ _ => None
      end
  | None => None
  end.

End Json.

Import Json.

(** ** Data shared by the two pages *)

(** [interface ImageItem]. *)
Module ImageItem.
Record t : Type := { id : Z; title : string; url : string }.
End ImageItem.

(** What [api.get] hands to [fetchImages]: the promise rejects with an
    [AxiosError] (network failure, timeout, error status), or resolves with
    the decoded body as [data]. *)
Inductive response : Type :=
| Rejects (message : string)
| Resolves (data : json).

(** The two kinds of error a query of the image list can end with: the
    [AxiosError] of the transport and a plain [Error] thrown by the page. *)
Inductive error : Type :=
| AxiosError (message : string)
| Error (message : string).

Inductive outcome (A : Type) : Type :=
| Resolved (a : A)
| Rejected (e : error).
Arguments Resolved {A} a.
Arguments Rejected {A} e.

(** [Array.isArray]. *)
Definition isArray (j : json) : bool :=
  match j with
  | JArr _ => true
  | _ => false
  end.

(** The value of property [k] of an object. *)
Definition field (k : string) (members : list (string * json)) : option json :=
  option_map snd (List.find (fun m => String.eqb (fst m) k) members).

(** A value with the fields of [interface ImageItem]: a number [id] and
    strings [title] and [url]. *)
Definition image_item_shaped (j : json) : bool :=
  match j with
  | JObj members =>
      match field "id" members, field "title" members, field "url" members with
      | Some (JNum _), Some (JStr _), Some (JStr _) => true
      | _, _, _ => false
      end
  | _ => false
  end.

Definition image_list_shaped (j : json) : bool :=
  match j with
  | JArr items => forallb image_item_shaped items
  | _ => false
  end.

(** ** The query cache entry under the key [['images']] *)

(** [getQueryData(['images'])]: [None] is [undefined], no data cached. *)
Definition cache : Type := option (list ImageItem.t).

(** [setQueryData(['images'], updater)]: an updater that returns [undefined]
    leaves the entry as it is. *)
Definition setQueryData (updater : cache -> cache) (c : cache) : cache :=
  match updater c with
  | Some d => Some d
  | None => c
  end.

(** The value [onMutate] returns, [{ prev }] in one page and [{ previous }]
    in the other. *)
Record context : Type := { prev : cache }.

(** The query client as the delete mutation sees it: the cached list and the
    number of refetches that [invalidateQueries] has started. *)
Record client : Type := { data : cache; refetches : nat }.

(** [cancelQueries] aborts a fetch in flight, whose result then never reaches
    the cache; it does not touch the cached data. *)
Definition cancelQueries (q : client) : client := q.

(** [invalidateQueries({ queryKey: ['images'] })] marks the one query of the
    page stale and starts a refetch of it. *)
Definition invalidateQueries (q : client) : client :=
  {| data := data q; refetches := S (refetches q) |}.

Definition with_data (f : cache -> cache) (q : client) : client :=
  {| data := f (data q); refetches := refetches q |}.

(** The callbacks a page passes to [useMutation]. *)
Record callbacks : Type := {
  on_mutate : Z -> client -> client * context;
  on_error : option context -> client -> client;
  on_settled : client -> client
}.

(** ** The mutation protocol of the query library

    [mutate(id)] runs [onMutate] and then issues [mutationFn(id)]; when the
    request settles the library runs [onError] (on failure only) and then
    [onSettled].  Several mutations can be in flight at once. *)
Module Mutation.

(** A mutation whose request has been issued and has not settled. *)
Record flight : Type := { variables : Z; ctx : option context }.

Record store : Type := {
  query : client;
  requests : list Z;      (* ids passed to [deleteImageRequest], in order *)
  active : list flight
}.

Inductive event : Type :=
| Mutate (id : Z)                 (* [deleteImage.mutate(id)] *)
| Settle (k : nat) (ok : bool).   (* the [k]-th active request settles *)

Section Protocol.
Variable cb : callbacks.

Definition mutate (id : Z) (s : store) : store :=
  let '(q, c) := on_mutate cb id (query s) in
  {| query := q;
     requests := requests s ++ [id];
     active := active s ++ [{| variables := id; ctx := Some c |}] |}.

Definition settle (k : nat) (ok : bool) (s : store) : store :=
  match active s !! k with
  | None => s
  | Some f =>
      let q := if ok then query s else on_error cb (ctx f) (query s) in
      {| query := on_settled cb q;
         requests := requests s;
         active := take k (active s) ++ drop (S k) (active s) |}
  end.

Definition step (s : store) (e : event) : store :=
  match e with
  | Mutate id => mutate id s
  | Settle k ok => settle k ok s
  end.

Definition run (es : list event) (s : store) : store :=
  fold_left step es s.

(** One [delete(id)] from start to settlement. *)
Definition delete (id : Z) (ok : bool) (s : store) : store :=
  settle (length (active s)) ok (mutate id s).

End Protocol.

(** A client with [c] cached, no request issued and nothing in flight. *)
Definition idle (c : cache) : store :=
  {| query := {| data := c; refetches := 0 |}; requests := []; active := [] |}.

(** The number of deletes a history of events issues. *)
Definition is_mutate (e : event) : bool :=
  match e with
  | Mutate _ => true
  | Settle _ _ => false
  end.

Definition mutations (es : list event) : nat :=
  length (List.filter is_mutate es).

(** The number of unsettled deletes of image [id]. *)
Definition active_for (id : Z) (s : store) : nat :=
  length (filter (fun f => variables f = id) (active s)).

End Mutation.

(** ** The retry loop of the query library

    [retry(failureCount, error)] is asked after each failed call of the query
    function, with the number of failures before this one. *)
Module Retryer.

Section Loop.
Variable retry : nat -> error -> bool.
Variable queryFn : nat -> outcome json.   (* the [k]-th call, from 0 *)

(** The final outcome and the number of retries made. *)
Fixpoint run (fuel : nat) (failureCount : nat) : option (outcome json * nat) :=
  match fuel with
  | O => None
  | S fuel' =>
      match queryFn failureCount with
      | Resolved d => Some (Resolved d, failureCount)
      | Rejected e =>
          if retry failureCount e then run fuel' (S failureCount)
          else Some (Rejected e, failureCount)
      end
  end.

End Loop.

End Retryer.

(** ** What the views of the two pages share *)

(** The value [getApiError] is given, as it looks at it: an [AxiosError],
    with the [message] of the response body when the server sent one
    ([error.response?.data?.message], a string as the function's result type
    has it) and the error's own [message]; or anything else, a plain [Error]
    and [null] included. *)
Inductive thrown : Type :=
| ThrownAxios (response_message : option string) (message : string)
| ThrownOther.

(** The error of a failed query as [getApiError] sees it. *)
Definition thrown_of (response_message : option string) (e : error) : thrown :=
  match e with
  | AxiosError message => ThrownAxios response_message message
  | Error _ => ThrownOther
  end.

(** [a || b] where [a] is a string or [undefined]: the empty string is
    falsy. *)
Definition or_else (a : option string) (b : string) : string :=
  match a with
  | Some s => if String.eqb s "" then b else s
  | None => b
  end.

(** What a page reads of [imagesQuery]. *)
Module Query.
Record t : Type := {
  isLoading : bool;
  isError : bool;
  error : thrown;          (* [ThrownOther] for [null] *)
  data : cache
}.
End Query.

(** The query once its retry loop has given up with error [e]: the data
    cached before stays, the error is set. *)
Definition failed_query (before : cache) (response_message : option string)
    (e : error) : Query.t :=
  {| Query.isLoading := false; Query.isError := true;
     Query.error := thrown_of response_message e; Query.data := before |}.

(** What a page renders. *)
Inductive view : Type :=
| Spinner
| ErrorText (text : string)
| Shown (gallery : list ImageItem.t) (canvas : option ImageItem.t)
| TypeError.     (* reading [length] of [undefined] *)

(** [Math.ceil(n / d)] on counts. *)
Definition ceil_div (n d : nat) : nat :=
  if (n mod d =? 0)%nat then (n / d)%nat else S (n / d).

(** The grid of both pages has three columns. *)
Definition columnCount : nat := 3.

(** [rowCount] of the [FixedSizeGrid]. *)
Definition rowCount (items : list ImageItem.t) : nat :=
  ceil_div (length items) columnCount.

(** The render callback of the grid: the image of cell
    [(rowIndex, columnIndex)], [None] where it returns [null]. *)
Definition cell (items : list ImageItem.t) (rowIndex columnIndex : nat)
  : option ImageItem.t :=
  items !! (rowIndex * columnCount + columnIndex)%nat.

(** The state of a page around its confirm dialog: the id put up for
    deletion, and the delete mutations. *)
Record page : Type := {
  selected : option Z;
  deletes : Mutation.store
}.

(** The Delete button of a card, [setSelected(img.id)]. *)
Definition onDelete (id : Z) (p : page) : page :=
  {| selected := Some id; deletes := deletes p |}.

(** [onClose] of the dialog, [setSelected(null)]. *)
Definition onClose (p : page) : page :=
  {| selected := None; deletes := deletes p |}.

(** What the user does around the dialog. *)
Inductive intent : Type :=
| RequestDelete (id : Z)
| CancelDelete
| ConfirmDelete.

(** The image element a canvas effect creates for a [src], with the
    [cancelled] flag of that run of the effect. *)
Record loader : Type := { loader_src : string; cancelled : bool }.

(** The state of an [AnnotationCanvas] as far as its image goes: the [src]
    it was last rendered with, the [src] of the element in [img], and the
    elements created so far. *)
Record canvas : Type := {
  src : string;
  img : option string;
  loaders : list loader
}.

(** The first render: [img] is [null], the effect creates one element. *)
Definition mount_canvas (s : string) : canvas :=
  {| src := s; img := None;
     loaders := [{| loader_src := s; cancelled := false |}] |}.

Inductive canvas_event : Type :=
| ChangeSrc (s : string)     (* rendered with another image *)
| Onload (k : nat).          (* the [k]-th element created has loaded *)

(** ** The page of [src/next.js] *)
Module Next.

(** [fetchImages]: the body of the response, as it came. *)
Definition fetchImages (r : response) : outcome json :=
  match r with
  | Rejects message => Rejected (AxiosError message)
  | Resolves data => Resolved data
  end.

(** [deleteImage.onMutate]. *)
Definition onMutate (id : Z) (q : client) : client * context :=
  let q1 := cancelQueries q in
  let prev := data q1 in
  let q2 :=
    with_data
      (setQueryData
         (fun old =>
            option_map
              (List.filter (fun i => negb (ImageItem.id i =? id))) old))
      q1 in
  (q2, {| prev := prev |}).

(** [deleteImage.onError]: [ctx?.prev] is truthy exactly when a list was
    captured, the empty list included. *)
Definition onError (ctx : option context) (q : client) : client :=
  match ctx with
  | Some {| prev := Some items |} =>
      with_data (setQueryData (fun _ => Some items)) q
  | _ => q
  end.

(** [deleteImage.onSettled]. *)
Definition onSettled (q : client) : client := invalidateQueries q.

Definition deleteImage : callbacks :=
  {| on_mutate := onMutate; on_error := onError; on_settled := onSettled |}.

(** [interface Annotation]. *)
Module Annotation.
Record t : Type := {
  id : string; x : number; y : number; width : number; height : number;
  color : string
}.
End Annotation.

(** The object [JSON.stringify] sees for an annotation: its own properties
    in creation order. *)
Definition to_json (a : Annotation.t) : json :=
  JObj [("id", JStr (Annotation.id a)); ("x", JNum (Annotation.x a));
        ("y", JNum (Annotation.y a)); ("width", JNum (Annotation.width a));
        ("height", JNum (Annotation.height a));
        ("color", JStr (Annotation.color a))].

Definition annotations_to_json (l : list Annotation.t) : json :=
  JArr (List.map to_json l).

(** The annotation a parsed value is, when it has exactly that shape: the
    six properties in that order, with finite numbers. *)
Definition of_json (j : json) : option Annotation.t :=
  match j with
  | JObj [(k1, JStr i); (k2, JNum x); (k3, JNum y); (k4, JNum w);
          (k5, JNum h); (k6, JStr c)] =>
      if (String.eqb k1 "id" && String.eqb k2 "x" && String.eqb k3 "y"
          && String.eqb k4 "width" && String.eqb k5 "height"
          && String.eqb k6 "color")%bool
      then Some {| Annotation.id := i; Annotation.x := x; Annotation.y := y;
                   Annotation.width := w; Annotation.height := h;
                   Annotation.color := c |}
      else None
  | _ => None
  end.

Fixpoint all_of_json (l : list json) : option (list Annotation.t) :=
  match l with
  | [] => Some []
  | j :: rest =>
      match of_json j, all_of_json rest with
      | Some a, Some l' => Some (a :: l')
      | _, _ => None
      end
  end.

Definition annotations_of_json (j : json) : option (list Annotation.t) :=
  match j with
  | JArr items => all_of_json items
  | _ => None
  end.

(** The [localStorage] key [`ann_${imageId}`]. *)
Definition storage_key (imageId : Z) : string := "ann_" +:+ show_Z imageId.

(** The state of one [useAnnotations] instance and the [localStorage] it
    writes to. *)
Record state : Type := {
  annotations : list Annotation.t;
  storage : gmap string string
}.

(** What the first effect of [useAnnotations] does. *)
Inductive loaded : Type :=
| Untouched                          (* [setAnnotations] is not called *)
| Parsed (l : list Annotation.t)     (* [setAnnotations(l)] *)
| Foreign (j : json)                 (* a value [of_json] does not read *)
| SyntaxError.                       (* [JSON.parse] throws *)

(** The first effect: [getItem], then [if (saved)], then [JSON.parse].  A
    missing item is [null] and the empty string is falsy. *)
Definition load_effect (imageId : Z) (st : gmap string string) : loaded :=
  match st !! storage_key imageId with
  | None => Untouched
  | Some saved =>
      if String.eqb saved "" then Untouched
      else
        match Json.parse saved with
        | None => SyntaxError
        | Some j =>
            match annotations_of_json j with
            | Some l => Parsed l
            | None => Foreign j
            end
        end
  end.

(** The second effect: [setItem(key, JSON.stringify(annotations))]. *)
Definition persist_effect (imageId : Z) (anns : list Annotation.t)
    (st : gmap string string) : gmap string string :=
  <[storage_key imageId := stringify (annotations_to_json anns)]> st.

Inductive mounted : Type :=
| Mounted (s : state)
| MountedForeign (j : json)
| Crashed.

(** The effects after a render in which [imageId] is new to the hook and
    the state is [anns]: both run, in order.  A state update queued by the
    first effect renders again and, [annotations] having changed, runs the
    second effect again. *)
Definition run_effects (imageId : Z) (anns : list Annotation.t)
    (st : gmap string string) : mounted :=
  match load_effect imageId st with
  | SyntaxError => Crashed
  | Foreign j => MountedForeign j
  | Untouched =>
      Mounted {| annotations := anns;
                 storage := persist_effect imageId anns st |}
  | Parsed l =>
      Mounted {| annotations := l;
                 storage :=
                   persist_effect imageId l (persist_effect imageId anns st) |}
  end.

(** Mounting the hook for [imageId]: the first render has
    [annotations = []]. *)
Definition mount (imageId : Z) (st : gmap string string) : mounted :=
  run_effects imageId [] st.

(** The [image] prop of a mounted canvas changes: the hook keeps its state
    and both effects run for the new [imageId]. *)
Definition change_image (imageId : Z) (s : state) : mounted :=
  run_effects imageId (annotations s) (storage s).

(** [setAnnotations(updater)] and the render it causes: the updater builds a
    new array, so the second effect runs. *)
Definition setAnnotations (imageId : Z)
    (updater : list Annotation.t -> list Annotation.t) (s : state) : state :=
  let anns := updater (annotations s) in
  {| annotations := anns;
     storage := persist_effect imageId anns (storage s) |}.

(** [addAnnotation(color)].  [now] is the value of [Date.now()] and [rnd] the
    text of [Math.random()] as the template literal renders it. *)
Definition new_annotation (color : string) (now : N) (rnd : string)
  : Annotation.t :=
  {| Annotation.id := show_N now +:+ String "-" rnd;
     Annotation.x := 60; Annotation.y := 60;
     Annotation.width := 160; Annotation.height := 100;
     Annotation.color := color |}.

Definition addAnnotation (color : string) (now : N) (rnd : string)
    (prev : list Annotation.t) : list Annotation.t :=
  prev ++ [new_annotation color now rnd].

(** [removeAnnotation(id)]. *)
Definition removeAnnotation (id : string) (prev : list Annotation.t)
  : list Annotation.t :=
  List.filter (fun a => negb (String.eqb (Annotation.id a) id)) prev.

(** The updater of [onDragEnd] for the rectangle of annotation [id], dropped
    at [(x, y)]. *)
Definition onDragEnd (id : string) (x y : number) (prev : list Annotation.t)
  : list Annotation.t :=
  List.map
    (fun p =>
       if String.eqb (Annotation.id p) id
       then {| Annotation.id := Annotation.id p;
               Annotation.x := x; Annotation.y := y;
               Annotation.width := Annotation.width p;
               Annotation.height := Annotation.height p;
               Annotation.color := Annotation.color p |}
       else p)
    prev.

(** What the user does to the canvas. *)
Inductive action : Type :=
| Add (color : string) (now : N) (rnd : string)
| Remove (id : string)
| Drag (id : string) (x y : number).

Definition updater_of (a : action) : list Annotation.t -> list Annotation.t :=
  match a with
  | Add color now rnd => addAnnotation color now rnd
  | Remove id => removeAnnotation id
  | Drag id x y => onDragEnd id x y
  end.

Definition act (imageId : Z) (s : state) (a : action) : state :=
  setAnnotations imageId (updater_of a) s.

Definition acts (imageId : Z) (l : list action) (s : state) : state :=
  fold_left (act imageId) l s.

(** [getApiError]. *)
Definition getApiError (e : thrown) : string :=
  match e with
  | ThrownAxios response_message message => or_else response_message message
  | ThrownOther => "Unexpected error"
  end.

(** [Content], as far as what it shows goes. *)
Definition Content (q : Query.t) : view :=
  if Query.isLoading q then Spinner
  else if Query.isError q then ErrorText (getApiError (Query.error q))
  else
    match Query.data q with
    | None => TypeError
    | Some items => Shown items (head items)
    end.

(** [onConfirm] of the dialog: [if (selected) deleteImage.mutate(selected);
    setSelected(null)].  The number 0 is falsy. *)
Definition onConfirm (p : page) : page :=
  {| selected := None;
     deletes :=
       match selected p with
       | Some id =>
           if id =? 0 then deletes p
           else Mutation.mutate deleteImage id (deletes p)
       | None => deletes p
       end |}.

Definition handle (p : page) (i : intent) : page :=
  match i with
  | RequestDelete id => onDelete id p
  | CancelDelete => onClose p
  | ConfirmDelete => onConfirm p
  end.

(** The image effect of [AnnotationCanvas] runs again for a new [src]; it
    has no cleanup. *)
Definition change_src (s : string) (c : canvas) : canvas :=
  if String.eqb s (src c) then c
  else
    {| src := s; img := img c;
       loaders := loaders c ++ [{| loader_src := s; cancelled := false |}] |}.

(** [i.onload = () => setImg(i)]. *)
Definition onload (k : nat) (c : canvas) : canvas :=
  match loaders c !! k with
  | Some l =>
      {| src := src c; img := Some (loader_src l); loaders := loaders c |}
  | None => c
  end.

Definition canvas_step (c : canvas) (e : canvas_event) : canvas :=
  match e with
  | ChangeSrc s => change_src s c
  | Onload k => onload k c
  end.

End Next.

(** ** The page of [src/unnamed/part_000] *)
Module Part000.

(** [fetchImages], with its guard against a body that is no array. *)
Definition fetchImages (r : response) : outcome json :=
  match r with
  | Rejects message => Rejected (AxiosError message)
  | Resolves data =>
      if negb (isArray data)
      then Rejected (Error "Images response is not an array")
      else Resolved data
  end.

(** [imagesQuery]'s [retry: (count) => count < 2]. *)
Definition retry (count : nat) (_ : error) : bool := (count <? 2)%nat.

(** [deleteImage.onMutate]. *)
Definition onMutate (id : Z) (q : client) : client * context :=
  let q1 := cancelQueries q in
  let previous := data q1 in
  let q2 :=
    with_data
      (setQueryData
         (fun old =>
            match old with
            | Some l =>
                Some (List.filter (fun img => negb (ImageItem.id img =? id)) l)
            | None => Some []
            end))
      q1 in
  (q2, {| prev := previous |}).

(** [deleteImage.onError]. *)
Definition onError (ctx : option context) (q : client) : client :=
  match ctx with
  | Some {| prev := Some items |} =>
      with_data (setQueryData (fun _ => Some items)) q
  | _ => q
  end.

(** [deleteImage.onSettled]. *)
Definition onSettled (q : client) : client := invalidateQueries q.

Definition deleteImage : callbacks :=
  {| on_mutate := onMutate; on_error := onError; on_settled := onSettled |}.

(** [interface Annotation]. *)
Module Annotation.
Record t : Type := { id : string; x : Z; y : Z; width : Z; height : Z }.
End Annotation.

(** The state of one [useAnnotations] instance: the list and
    [counterRef.current]. *)
Record state : Type := {
  annotations : list Annotation.t;
  counter : Z
}.

Definition initial : state := {| annotations := []; counter := 0 |}.

(** Mounting the hook: [useState([])] and [useRef(0)].  The hook has no
    effect and reads no storage. *)
Definition mount (st : gmap string string) : state := initial.

(** [addAnnotation()].  [uuid] is the value of [crypto.randomUUID()]. *)
Definition addAnnotation (uuid : string) (s : state) : state :=
  let counter := counter s + 1 in
  let offset := counter * 6 in
  {| annotations :=
       annotations s ++
       [{| Annotation.id := uuid;
           Annotation.x := 50 + offset; Annotation.y := 50 + offset;
           Annotation.width := 160; Annotation.height := 100 |}];
     counter := counter |}.

Definition adds (uuids : list string) (s : state) : state :=
  fold_left (fun s u => addAnnotation u s) uuids s.

(** [getApiError]. *)
Definition getApiError (e : thrown) : string :=
  match e with
  | ThrownAxios response_message message => or_else response_message message
  | ThrownOther => "Something went wrong"
  end.

(** [PageContent], as far as what it shows goes. *)
Definition PageContent (q : Query.t) : view :=
  if Query.isLoading q then Spinner
  else
    match Query.isError q, Query.data q with
    | false, Some items => Shown items (head items)
    | _, _ => ErrorText (getApiError (Query.error q))
    end.

(** [onConfirm] of the dialog: [if (selectedId !== null)
    { deleteImage.mutate(selectedId); setSelectedId(null); }]. *)
Definition onConfirm (p : page) : page :=
  match selected p with
  | Some id =>
      {| selected := None;
         deletes := Mutation.mutate deleteImage id (deletes p) |}
  | None => p
  end.

Definition handle (p : page) (i : intent) : page :=
  match i with
  | RequestDelete id => onDelete id p
  | CancelDelete => onClose p
  | ConfirmDelete => onConfirm p
  end.

(** The cleanup of the image effect: [cancelled = true] for the element of
    the run that ends. *)
Definition cancel_last (ls : list loader) : list loader :=
  match List.rev ls with
  | [] => []
  | l :: before =>
      List.rev before ++ [{| loader_src := loader_src l; cancelled := true |}]
  end.

(** The image effect of [AnnotationCanvas] runs again for a new [src],
    after the cleanup of its previous run. *)
Definition change_src (s : string) (c : canvas) : canvas :=
  if String.eqb s (src c) then c
  else
    {| src := s; img := img c;
       loaders :=
         cancel_last (loaders c) ++
         [{| loader_src := s; cancelled := false |}] |}.

(** [image.onload = () => { if (!cancelled) setImg(image); }]. *)
Definition onload (k : nat) (c : canvas) : canvas :=
  match loaders c !! k with
  | Some l =>
      if cancelled l then c
      else {| src := src c; img := Some (loader_src l);
              loaders := loaders c |}
  | None => c
  end.

Definition canvas_step (c : canvas) (e : canvas_event) : canvas :=
  match e with
  | ChangeSrc s => change_src s c
  | Onload k => onload k c
  end.

End Part000.

(** ** Notions used in the statements *)

(** A character that can follow a number in a text: no digit, and none of
    the characters that continue a number. *)
Definition number_stop (c : ascii) : bool :=
  (negb (is_digit c) && negb (Ascii.eqb c ".") && negb (Ascii.eqb c "e")
   && negb (Ascii.eqb c "E"))%bool.

Fixpoint all_digits (s : string) : bool :=
  match s with
  | EmptyString => true
  | String c r => is_digit c && all_digits r
  end.

(** The text of a number literal with integer part [int_part], fraction
    digits [frac] and exponent [ex]. *)
Definition literal (int_part frac : string) (ex : option Z) : string :=
  int_part +:+
  (match frac with
   | EmptyString => EmptyString
   | String _ _ => String "." frac
   end +:+
   match ex with
   | None => EmptyString
   | Some z =>
       String "e" ((if 0 <=? z then "+" else "-") +:+ show_N (Z.abs_N z))
   end).

(** [n / 2] as a number: [halves 21] is 10.5. *)
Definition halves (n : Z) : number := {| units := n * 2 ^ 1073 |}.

(** The numbers of an annotation are doubles. *)
Definition doubles (a : Next.Annotation.t) : bool :=
  is_double (Next.Annotation.x a) && is_double (Next.Annotation.y a)
  && is_double (Next.Annotation.width a)
  && is_double (Next.Annotation.height a).

(** The position a drag reports is a pair of doubles. *)
Definition drags_doubles (a : Next.action) : bool :=
  match a with
  | Next.Drag _ x y => is_double x && is_double y
  | _ => true
  end.

(** The text [JSON.stringify] writes for one annotation, and for the
    elements of a set. *)
Definition annotation_text (a : Next.Annotation.t) : string :=
  stringify (Next.to_json a).

Definition annotations_text (l : list Next.Annotation.t) : string :=
  join "," (List.map annotation_text l).

(** The stored text of image [imageId] is the text of the state's set. *)
Definition persisted (imageId : Z) (s : Next.state) : Prop :=
  Next.storage s !! Next.storage_key imageId =
  Some (stringify (Next.annotations_to_json (Next.annotations s))).

(** The identifier made of what one [add()] of [src/next.js] draws: the
    clock's value and the text of the random number. *)
Definition draw_id (d : N * string) : string :=
  show_N (fst d) +:+ String "-" (snd d).

(** Successive calls of [addAnnotation] of [src/next.js], each with its
    color and its draw. *)
Definition add_all (draws : list (string * (N * string)))
    (prev : list Next.Annotation.t) : list Next.Annotation.t :=
  fold_left
    (fun l d => Next.addAnnotation (fst d) (fst (snd d)) (snd (snd d)) l)
    draws prev.

(** An image record with the given id. *)
Definition image (id : Z) : ImageItem.t :=
  {| ImageItem.id := id; ImageItem.title := "image"; ImageItem.url := "/img" |}.

(** A stored set of one annotation, cut after 30 characters. *)
Definition truncated_payload : string :=
  substring 0 30
    (stringify
       (Next.annotations_to_json
          [Next.new_annotation "#ff1744" 1700000000000 "0.25"])).

(** What [part_000]'s canvas keeps: every element but the one created last
    has been cancelled, and that one is for the current [src]. *)
Definition one_live_loader (c : canvas) : Prop :=
  exists before,
    loaders c =
      before ++ [{| loader_src := src c; cancelled := false |}] /\
    Forall (fun l => cancelled l = true) before.

(** * Properties of the JSON texts *)

Lemma append_cons (x : ascii) (a b : string) :
  String x a +:+ b = String x (a +:+ b).
Proof. reflexivity. Qed.

Lemma append_assoc (a b c : string) : (a +:+ b) +:+ c = a +:+ (b +:+ c).
Proof.
  induction a as [|x a IH]; [reflexivity |].
  rewrite !append_cons, IH. reflexivity.
Qed.

Lemma append_nil_l (s : string) : EmptyString +:+ s = s.
Proof. reflexivity. Qed.

(** Scanning the escape of one character gives the character back. *)
Lemma scan_escape_char (c : ascii) (k : string) :
  scan_string (escape_char c +:+ k) =
  match scan_string k with
  | Some (t, rest) => Some (String c t, rest)
  | None => None
  end.
Proof.
  destruct c as [[] [] [] [] [] [] [] []]; reflexivity.
Qed.

(** A quoted string scans back to the string it quotes. *)
Lemma scan_string_escape (s rest : string) :
  scan_string (escape s +:+ String dquote rest) = Some (s, rest).
Proof.
  induction s as [|c s IH]; [reflexivity |].
  change (escape (String c s)) with (escape_char c +:+ escape s).
  rewrite append_assoc, scan_escape_char, IH. reflexivity.
Qed.

(** ** Numbers *)

Lemma append_nil_r (s : string) : s +:+ EmptyString = s.
Proof.
  induction s as [|c s IH]; [reflexivity |]. now rewrite append_cons, IH.
Qed.

Lemma length_append (a b : string) :
  String.length (a +:+ b) = (String.length a + String.length b)%nat.
Proof.
  induction a as [|c a IH]; [reflexivity |].
  rewrite append_cons. cbn [String.length]. now rewrite IH.
Qed.

Lemma span_digits_cons (a : ascii) (s : string) :
  is_digit a = true ->
  span_digits (String a s) =
  (String a (fst (span_digits s)), snd (span_digits s)).
Proof.
  intros Ha. cbn [span_digits]. rewrite Ha. now destruct (span_digits s).
Qed.

(** A run of digits that a character other than a digit ends is a maximal
    run of digits. *)
Lemma span_digits_all (ds : string) (c : ascii) (r : string) :
  all_digits ds = true -> is_digit c = false ->
  span_digits (ds +:+ String c r) = (ds, String c r).
Proof.
  intros Hd Hc. induction ds as [|a ds IH].
  - rewrite append_nil_l. cbn [span_digits]. now rewrite Hc.
  - cbn [all_digits] in Hd. apply andb_prop in Hd as [Ha Hd].
    rewrite append_cons, span_digits_cons, IH by assumption. reflexivity.
Qed.

Lemma all_digits_app (a b : string) :
  all_digits (a +:+ b) = all_digits a && all_digits b.
Proof.
  induction a as [|c a IH]; [reflexivity |].
  rewrite append_cons. cbn [all_digits]. now rewrite IH, andb_assoc.
Qed.

Lemma all_digits_zeros (n : nat) : all_digits (zeros n) = true.
Proof. induction n as [|n IH]; [reflexivity | exact IH]. Qed.

Lemma all_digits_uint (d : uint) :
  all_digits (NilEmpty.string_of_uint d) = true.
Proof. induction d; cbn [NilEmpty.string_of_uint all_digits]; auto. Qed.

Lemma all_digits_show_N (n : N) : all_digits (show_N n) = true.
Proof. apply all_digits_uint. Qed.

Lemma span_digits_uint (d : uint) (c : ascii) (r : string) :
  is_digit c = false ->
  span_digits (NilEmpty.string_of_uint d +:+ String c r) =
  (NilEmpty.string_of_uint d, String c r).
Proof. apply span_digits_all, all_digits_uint. Qed.

Lemma split_at_app (n : nat) (s : string) :
  fst (split_at n s) +:+ snd (split_at n s) = s.
Proof.
  revert s. induction n as [|n IH]; intros [|c s]; try reflexivity.
  cbn [split_at]. specialize (IH s). destruct (split_at n s) as [a b].
  cbn [fst snd] in *. now rewrite append_cons, IH.
Qed.

Lemma split_at_length (n : nat) (s : string) :
  (n <= String.length s)%nat -> String.length (fst (split_at n s)) = n.
Proof.
  revert s. induction n as [|n IH]; intros [|c s] H; try reflexivity.
  - cbn [String.length] in H. lia.
  - cbn [String.length] in H. cbn [split_at]. specialize (IH s).
    destruct (split_at n s) as [a b]. cbn [fst String.length] in *.
    rewrite IH by lia. reflexivity.
Qed.

(** *** The value of a run of digits *)

Lemma digits_from_app (acc : N) (a b : string) :
  digits_from acc (a +:+ b) = digits_from (digits_from acc a) b.
Proof.
  revert acc. induction a as [|c a IH]; intros acc; [reflexivity |].
  rewrite append_cons. cbn [digits_from]. apply IH.
Qed.

Lemma digits_from_zeros (acc : N) (n : nat) :
  digits_from acc (zeros n) = (acc * 10 ^ N.of_nat n)%N.
Proof.
  revert acc. induction n as [|n IH]; intros acc.
  - cbn. lia.
  - cbn [zeros digits_from]. rewrite IH.
    change (digit_value "0") with 0%N.
    rewrite Nat2N.inj_succ, N.pow_succ_r'. lia.
Qed.

Lemma digits_from_uint (d : uint) (p : positive) :
  digits_from (Npos p) (NilEmpty.string_of_uint d) =
  Npos (Pos.of_uint_acc d p).
Proof.
  revert p. induction d; intros p;
    cbn [NilEmpty.string_of_uint digits_from Pos.of_uint_acc];
    [reflexivity | ..];
    match goal with
    | |- digits_from (_ + digit_value ?c) _ = _ =>
        let v := eval vm_compute in (digit_value c) in
        change (digit_value c) with v
    end;
    rewrite <- IHd; f_equal; lia.
Qed.

Lemma digits_value_uint (d : uint) :
  digits_value (NilEmpty.string_of_uint d) = N.of_uint d.
Proof.
  unfold digits_value.
  induction d; cbn [NilEmpty.string_of_uint digits_from];
    [reflexivity | exact IHd | ..];
    match goal with
    | |- digits_from (_ + digit_value ?c) _ = _ =>
        let v := eval vm_compute in (digit_value c) in
        change (digit_value c) with v
    end;
    cbn [N.mul N.add]; apply digits_from_uint.
Qed.

Lemma digits_value_show_N (n : N) : digits_value (show_N n) = n.
Proof.
  unfold show_N. rewrite digits_value_uint. apply DecimalN.Unsigned.of_to.
Qed.

Lemma show_N_inj (a b : N) : show_N a = show_N b -> a = b.
Proof.
  intros H. apply (f_equal digits_value) in H.
  now rewrite !digits_value_show_N in H.
Qed.

Lemma show_Z_inj (a b : Z) : show_Z a = show_Z b -> a = b.
Proof.
  assert (Hd : forall n, exists c r,
               show_N n = String c r /\ is_digit c = true).
  { intros n. pose proof (all_digits_show_N n) as Hn.
    destruct (show_N n) as [|c r] eqn:E.
    - pose proof (f_equal digits_value E) as E'.
      rewrite digits_value_show_N in E'. subst n. discriminate E.
    - cbn [all_digits] in Hn. apply andb_prop in Hn as [Hc _]. eauto. }
  destruct a as [|p|p], b as [|q|q]; cbn [show_Z]; intros H;
    try reflexivity.
  - apply (show_N_inj 0 (Npos q)) in H. discriminate H.
  - destruct (Hd (Npos 1)) as (c & r & _ & _).
    destruct (Hd 0%N) as (c0 & r0 & E0 & H0). discriminate H.
  - apply (show_N_inj (Npos p) 0) in H. discriminate H.
  - apply show_N_inj in H. now injection H as ->.
  - destruct (Hd (Npos p)) as (c & r & E & Hc). rewrite E in H.
    injection H as -> _. discriminate Hc.
  - discriminate H.
  - destruct (Hd (Npos q)) as (c & r & E & Hc). rewrite E in H.
    injection H as <- _. discriminate Hc.
  - injection H as H. apply show_N_inj in H. now injection H as ->.
Qed.

(** *** Rounding *)

Lemma scale_eq : scale = 2 ^ 1074.
Proof. vm_compute. reflexivity. Qed.

Lemma overflow_eq : overflow = 2 ^ 2098.
Proof. vm_compute. reflexivity. Qed.

#[local] Opaque scale overflow.

Lemma div_eucl_eq (a b : Z) : Z.div_eucl a b = (a / b, a mod b).
Proof. unfold Z.div, Z.modulo. now destruct (Z.div_eucl a b). Qed.

(** A whole number is the integer nearest to itself. *)
Lemma round_half_even_exact (q b : Z) :
  0 < b -> round_half_even (q * b) b = q.
Proof.
  intros Hb. unfold round_half_even.
  rewrite div_eucl_eq, Z.div_mul, Z.mod_mul by lia.
  destruct (2 * 0 <? b) eqn:E; [reflexivity |].
  apply Z.ltb_ge in E. lia.
Qed.

Lemma is_double_pos (a : Z) :
  0 < a -> is_double {| units := a |} = true ->
  a < overflow /\
  (Z.log2 a - 52 <= 0 \/
   (0 < Z.log2 a - 52 /\ a mod 2 ^ (Z.log2 a - 52) = 0)).
Proof.
  intros Ha H. unfold is_double in H. cbn [units] in H.
  rewrite Z.abs_eq in H by lia.
  apply andb_prop in H as [H1 H2]. apply Z.ltb_lt in H1. split; [exact H1 |].
  destruct (Z.log2 a <=? 52) eqn:E.
  - left. apply Z.leb_le in E. lia.
  - right. apply Z.leb_gt in E. cbn [orb] in H2. apply Z.eqb_eq in H2.
    split; [lia | exact H2].
Qed.

(** A double is the double nearest to itself. *)
Lemma nearest_exact (a b : Z) :
  0 < b -> 0 < a -> is_double {| units := a |} = true ->
  nearest (a * b) b = Some a.
Proof.
  intros Hb Ha Hd. apply is_double_pos in Hd as [Ho Hs]; [|exact Ha].
  unfold nearest. rewrite Z.div_mul by lia.
  destruct Hs as [Hs | [Hs Hm]].
  - apply Z.leb_le in Hs. rewrite Hs, round_half_even_exact by exact Hb.
    apply Z.ltb_lt in Ho. now rewrite Ho.
  - apply Z.leb_gt in Hs as Hs'. rewrite Hs'.
    set (s := Z.log2 a - 52) in *.
    assert (Hp : 0 < 2 ^ s) by (apply Z.pow_pos_nonneg; lia).
    apply Z.div_exact in Hm; [|lia].
    replace (a * b) with (a / 2 ^ s * (b * 2 ^ s)).
    2:{ rewrite Hm at 2. ring. }
    rewrite round_half_even_exact by lia.
    replace (a / 2 ^ s * 2 ^ s) with a by (rewrite Hm at 1; ring).
    apply Z.ltb_lt in Ho. now rewrite Ho.
Qed.

(** The decimal expansion of a double denotes it. *)
Lemma of_decimal_exact (a : Z) :
  0 < a -> is_double {| units := a |} = true ->
  of_decimal (Z.to_N (a * 5 ^ 1074)) (-1074) = Some a.
Proof.
  intros Ha Hd.
  assert (H5 : 0 < 5 ^ 1074) by (apply Z.pow_pos_nonneg; lia).
  assert (H10 : 0 < 10 ^ 1074) by (apply Z.pow_pos_nonneg; lia).
  assert (Hm : 0 < a * 5 ^ 1074) by (apply Z.mul_pos_pos; lia).
  set (m := a * 5 ^ 1074) in *.
  unfold of_decimal.
  destruct (Z.to_N m =? 0)%N eqn:E0; [apply N.eqb_eq in E0; lia |].
  change (400 <? -1074) with false. cbv iota.
  rewrite Z2N.id by lia.
  pose proof (Z.log2_nonneg m) as Hl.
  destruct (-1074 <? - Z.log2 m - 2000) eqn:E1; [apply Z.ltb_lt in E1; lia |].
  change (0 <=? -1074) with false. cbv iota.
  change (- -1074) with 1074.
  replace (m * scale) with (a * 10 ^ 1074).
  - now apply nearest_exact.
  - unfold m. rewrite scale_eq, <- Z.mul_assoc, <- Z.pow_mul_l. reflexivity.
Qed.

(** Digits followed by zeros denote what the exponent says. *)
Lemma of_decimal_shift (m : N) (j : nat) :
  m <> 0%N -> Z.of_nat j <= 400 ->
  of_decimal (m * 10 ^ N.of_nat j) 0 = of_decimal m (Z.of_nat j).
Proof.
  intros Hm Hj. unfold of_decimal.
  assert (Hp : (10 ^ N.of_nat j <> 0)%N) by (apply N.pow_nonzero; lia).
  destruct (m * 10 ^ N.of_nat j =? 0)%N eqn:E0; [apply N.eqb_eq in E0; lia |].
  destruct (m =? 0)%N eqn:E1; [apply N.eqb_eq in E1; lia |].
  change (400 <? 0) with false. cbv iota.
  destruct (400 <? Z.of_nat j) eqn:E2; [apply Z.ltb_lt in E2; lia |].
  pose proof (Z.log2_nonneg (Z.of_N (m * 10 ^ N.of_nat j))) as Hl1.
  pose proof (Z.log2_nonneg (Z.of_N m)) as Hl2.
  destruct (0 <? - Z.log2 (Z.of_N (m * 10 ^ N.of_nat j)) - 2000) eqn:E3;
    [apply Z.ltb_lt in E3; lia |].
  destruct (Z.of_nat j <? - Z.log2 (Z.of_N m) - 2000) eqn:E4;
    [apply Z.ltb_lt in E4; lia |].
  change (0 <=? 0) with true. cbv iota.
  destruct (0 <=? Z.of_nat j) eqn:E5; [|apply Z.leb_gt in E5; lia].
  rewrite N2Z.inj_mul, N2Z.inj_pow, nat_N_Z, Z.pow_0_r, Z.mul_1_r.
  reflexivity.
Qed.

(** *** The digits of a double *)

Lemma shortest_reads_back (fuel : nat) (a n k : Z) (c : N * Z) :
  shortest fuel a n k = Some c -> reads_back a c = true.
Proof.
  revert k. induction fuel as [|fuel IH]; intros k; [discriminate |].
  cbn [shortest].
  destruct (List.find (reads_back a) (candidates a n k)) as [c'|] eqn:E.
  - intros [= <-]. now apply List.find_some in E.
  - apply IH.
Qed.

(** The digits [toString] prints for a double denote it. *)
Lemma digits_of_reads_back (a : Z) :
  0 < a -> is_double {| units := a |} = true ->
  fst (digits_of a) <> 0%N /\
  of_decimal (fst (digits_of a)) (snd (digits_of a)) = Some a.
Proof.
  intros Ha Hd.
  assert (H : of_decimal (fst (digits_of a)) (snd (digits_of a)) = Some a).
  { unfold digits_of.
    destruct (shortest 17 a (magnitude a + 1) 1) as [c|] eqn:E.
    - apply shortest_reads_back in E. unfold reads_back in E.
      destruct (of_decimal (fst c) (snd c)) as [u|]; [|discriminate E].
      apply Z.eqb_eq in E. now subst u.
    - now apply of_decimal_exact. }
  split; [|exact H].
  intros Hz. rewrite Hz in H. cbn in H. injection H as H. lia.
Qed.

(** *** Scanning a number literal *)

Lemma number_stop_not_digit (c : ascii) :
  number_stop c = true -> is_digit c = false.
Proof.
  unfold number_stop. destruct (is_digit c); [discriminate | reflexivity].
Qed.

Lemma scan_fraction_stop (c : ascii) (r : string) :
  Ascii.eqb c "." = false ->
  scan_fraction (String c r) = Some (EmptyString, String c r).
Proof. intros H. unfold scan_fraction. now rewrite H. Qed.

Lemma scan_exponent_stop (c : ascii) (r : string) :
  number_stop c = true ->
  scan_exponent (String c r) = Some (0, String c r).
Proof.
  unfold number_stop, scan_exponent. intros H.
  destruct (Ascii.eqb c "e"), (Ascii.eqb c "E"); try reflexivity;
    rewrite ?Bool.andb_false_r in H; discriminate H.
Qed.

Lemma number_stop_not_point (c : ascii) :
  number_stop c = true -> Ascii.eqb c "." = false.
Proof.
  unfold number_stop. destruct (Ascii.eqb c "."); [|reflexivity].
  rewrite !Bool.andb_false_r. discriminate.
Qed.

(** The text of a natural number starts with a digit, and with the digit 0
    only when the number is 0. *)
Lemma show_N_head (n : N) :
  exists a ds, show_N n = String a ds /\ is_digit a = true /\
               (n <> 0%N -> Ascii.eqb a "0" = false).
Proof.
  pose proof (all_digits_show_N n) as Hd.
  pose proof (digits_value_show_N n) as Hv.
  destruct (show_N n) as [|a ds] eqn:E.
  - exists "0"%char, EmptyString. cbn in Hv. subst n. discriminate E.
  - cbn [all_digits] in Hd. apply andb_prop in Hd as [Ha _].
    exists a, ds. repeat split; [exact Ha |]. intros Hn.
    destruct (Ascii.eqb a "0") eqn:E0; [|reflexivity].
    apply Ascii.eqb_eq in E0. subst a. exfalso.
    unfold show_N in E. pose proof (DecimalN.Unsigned.to_of (N.to_uint n)) as U.
    rewrite DecimalN.Unsigned.of_to in U.
    destruct (N.to_uint n) as [|u|u|u|u|u|u|u|u|u|u] eqn:Eu;
      try discriminate E.
    rewrite unorm_D0 in U. unfold unorm in U.
    destruct (nzhead u) eqn:Hu; try discriminate U.
    + apply Hn. rewrite <- (DecimalN.Unsigned.of_to n), Eu.
      injection U as U. subst u. reflexivity.
    + eapply nzhead_nonzero, Hu.
Qed.

Lemma scan_exponent_literal (ex : option Z) (c : ascii) (r : string) :
  number_stop c = true ->
  scan_exponent
    (match ex with
     | None => EmptyString
     | Some z =>
         String "e" ((if 0 <=? z then "+" else "-") +:+ show_N (Z.abs_N z))
     end +:+ String c r) =
  Some (match ex with Some z => z | None => 0 end, String c r).
Proof.
  intros Hc. destruct ex as [z|].
  - rewrite append_cons. unfold scan_exponent.
    change (Ascii.eqb "e" "e" || Ascii.eqb "e" "E")%bool with true.
    cbv iota.
    destruct (show_N_head (Z.abs_N z)) as (a & ds & E & Ha & _).
    pose proof (span_digits_all (show_N (Z.abs_N z)) c r
                  (all_digits_show_N _) (number_stop_not_digit c Hc)) as Hs.
    pose proof (digits_value_show_N (Z.abs_N z)) as Hv.
    rewrite E in Hs, Hv.
    destruct (0 <=? z) eqn:Ez;
      repeat first [rewrite append_assoc | rewrite append_cons
                   | rewrite append_nil_l];
      cbv beta iota;
      [change (Ascii.eqb "+" "+") with true
      |change (Ascii.eqb "-" "+") with false;
       change (Ascii.eqb "-" "-") with true];
      cbv iota; rewrite E, Hs, Hv; do 2 f_equal.
    + apply Z.leb_le in Ez. rewrite N2Z.inj_abs_N. lia.
    + apply Z.leb_gt in Ez. rewrite N2Z.inj_abs_N. lia.
  - rewrite append_nil_l. now apply scan_exponent_stop.
Qed.

(** Scanning the text of a number literal gives the value of its parts. *)
Lemma scan_number_literal (negative : bool) (a : ascii) (ds frac : string)
    (ex : option Z) (c : ascii) (r : string) :
  all_digits (String a ds) = true ->
  (Ascii.eqb a "0" && negb (String.eqb ds ""))%bool = false ->
  all_digits frac = true ->
  number_stop c = true ->
  scan_number
    ((if negative then "-" else "") +:+
     (literal (String a ds) frac ex +:+ String c r)) =
  Some (number_value negative
          (digits_value (String a ds +:+ frac))
          (match ex with Some z => z | None => 0 end
           - Z.of_nat (String.length frac)),
        String c r).
Proof.
  intros Hi Hz Hf Hc.
  pose proof (number_stop_not_digit c Hc) as Hcd.
  pose proof (number_stop_not_point c Hc) as Hcp.
  pose proof (scan_exponent_literal ex c r Hc) as He.
  assert (Ha : Ascii.eqb a "-" = false).
  { cbn [all_digits] in Hi. apply andb_prop in Hi as [Ha _].
    destruct (Ascii.eqb_spec a "-") as [->|]; [discriminate Ha | reflexivity]. }
  set (tail := match ex with
               | None => EmptyString
               | Some z =>
                   String "e"
                     ((if 0 <=? z then "+" else "-") +:+ show_N (Z.abs_N z))
               end +:+ String c r) in *.
  assert (Ht : exists t u, tail = String t u /\ is_digit t = false /\
                           Ascii.eqb t "." = false).
  { unfold tail. destruct ex as [z|].
    - rewrite append_cons. eauto.
    - rewrite append_nil_l. eauto. }
  destruct Ht as (t & u & Et & Htd & Htp).
  assert (Hscan : forall s1,
            s1 = String a ds +:+
                 (match frac with
                  | EmptyString => EmptyString
                  | String _ _ => String "." frac
                  end +:+ tail) ->
            match span_digits s1 with
            | (EmptyString, _) => None
            | (String lead ds0 as int_part, s2) =>
                if (Ascii.eqb lead "0" && negb (String.eqb ds0 ""))%bool
                then None
                else
                  match scan_fraction s2 with
                  | None => None
                  | Some (frac0, s3) =>
                      match scan_exponent s3 with
                      | None => None
                      | Some (e, s4) =>
                          Some (number_value negative
                                  (digits_value (int_part +:+ frac0))
                                  (e - Z.of_nat (String.length frac0)), s4)
                      end
                  end
            end =
            Some (number_value negative
                    (digits_value (String a ds +:+ frac))
                    (match ex with Some z => z | None => 0 end
                     - Z.of_nat (String.length frac)),
                  String c r)).
  { intros s1 ->. destruct frac as [|f fs]; cbv iota.
    - rewrite append_nil_l, Et, span_digits_all by assumption.
      rewrite Hz, scan_fraction_stop by exact Htp.
      rewrite <- Et, He. reflexivity.
    - rewrite (append_cons "."), span_digits_all
        by (assumption || reflexivity).
      rewrite Hz. unfold scan_fraction.
      change (Ascii.eqb "." ".") with true. cbv iota.
      rewrite Et, span_digits_all by assumption.
      rewrite <- Et, He. reflexivity. }
  unfold literal. rewrite !append_assoc. fold tail.
  unfold scan_number. destruct negative.
  - rewrite append_cons, append_nil_l.
    change (Ascii.eqb "-" "-") with true. cbv iota. now apply Hscan.
  - rewrite append_nil_l, append_cons, Ha. cbv iota.
    rewrite <- append_cons. now apply Hscan.
Qed.

(** *** Scanning what [toString] prints *)

Lemma split_at_head (n : nat) (a : ascii) (ds : string) :
  exists t, fst (split_at (S n) (String a ds)) = String a t.
Proof. cbn [split_at]. destruct (split_at n ds). cbn. eauto. Qed.

(** Scanning the text of the decimal with digits [m] and exponent [p]
    gives the value of that decimal. *)
Lemma scan_number_format (negative : bool) (m : N) (p : Z) (c : ascii)
    (r : string) :
  m <> 0%N -> number_stop c = true ->
  scan_number
    ((if negative then "-" else "") +:+
     (format (show_N m) p +:+ String c r)) =
  Some (number_value negative m p, String c r).
Proof.
  intros Hm Hc.
  destruct (show_N_head m) as (a & ds & E & Ha & Hz). specialize (Hz Hm).
  pose proof (all_digits_show_N m) as Hd.
  pose proof (digits_value_show_N m) as Hv.
  rewrite E in Hd, Hv. unfold format. rewrite E.
  set (k := Z.of_nat (String.length (String a ds))).
  assert (Hk : k = Z.of_nat (String.length ds) + 1)
    by (unfold k; cbn [String.length]; lia).
  assert (Hlead : forall t, (Ascii.eqb a "0" && negb (String.eqb t ""))%bool
                            = false) by (intros t; now rewrite Hz).
  destruct ((k <=? p + k) && (p + k <=? 21)) eqn:C1.
  { (* the digits, then zeros *)
    apply andb_prop in C1 as [C1 C2].
    apply Z.leb_le in C1. apply Z.leb_le in C2.
    replace (p + k - k) with p by lia.
    assert (El : String a ds +:+ zeros (Z.to_nat p) =
                 literal (String a (ds +:+ zeros (Z.to_nat p)))
                   EmptyString None).
    { unfold literal. now rewrite append_nil_l, append_nil_r. }
    rewrite El, scan_number_literal; try assumption; try reflexivity.
    - rewrite append_nil_r, <- append_cons.
      unfold digits_value. rewrite digits_from_app, digits_from_zeros.
      fold (digits_value (String a ds)). rewrite Hv.
      cbn [String.length Z.of_nat]. unfold number_value.
      rewrite of_decimal_shift by lia. rewrite Z2Nat.id by lia.
      reflexivity.
    - rewrite <- append_cons, all_digits_app, Hd. apply all_digits_zeros.
    - apply Hlead. }
  destruct ((0 <? p + k) && (p + k <=? 21)) eqn:C2.
  { (* the decimal point is among the digits *)
    apply andb_prop in C2 as [C2 C3].
    apply Z.ltb_lt in C2. apply Z.leb_le in C3.
    apply Bool.andb_false_iff in C1 as [C1 | C1];
      [apply Z.leb_gt in C1 | apply Z.leb_gt in C1; lia].
    pose proof (split_at_app (Z.to_nat (p + k)) (String a ds)) as Hs.
    pose proof (split_at_length (Z.to_nat (p + k)) (String a ds)) as Hl.
    destruct (Z.to_nat (p + k)) as [|n] eqn:En; [lia |].
    destruct (split_at_head n a ds) as (t & Et).
    destruct (split_at (S n) (String a ds)) as [int_part frac].
    cbn [fst snd] in *. subst int_part.
    assert (Hlen : String.length (String a t) = S n).
    { apply Hl. fold k in Hk. cbn [String.length]. lia. }
    assert (Hfl : Z.of_nat (String.length frac) = - p).
    { apply (f_equal String.length) in Hs. rewrite length_append, Hlen in Hs.
      unfold k in *. lia. }
    rewrite <- Hs, all_digits_app in Hd. apply andb_prop in Hd as [Hd1 Hd2].
    assert (El : String a t +:+ String "." frac =
                 literal (String a t) frac None).
    { unfold literal. rewrite append_nil_r.
      destruct frac; [cbn [String.length] in Hfl; lia | reflexivity]. }
    rewrite El, scan_number_literal; try assumption; [|apply Hlead].
    rewrite Hs, Hv, Hfl. do 3 f_equal. lia. }
  destruct ((-6 <? p + k) && (p + k <=? 0)) eqn:C3.
  { (* zeros between the decimal point and the digits *)
    apply andb_prop in C3 as [C3 C4].
    apply Z.ltb_lt in C3. apply Z.leb_le in C4.
    assert (El : String "0"
                   (String "." (zeros (Z.to_nat (- (p + k))) +:+ String a ds)) =
                 literal "0" (zeros (Z.to_nat (- (p + k))) +:+ String a ds)
                   None).
    { unfold literal. rewrite append_nil_r.
      destruct (zeros (Z.to_nat (- (p + k)))); reflexivity. }
    rewrite El, scan_number_literal; try assumption; try reflexivity.
    - do 3 f_equal.
      + unfold digits_value. rewrite append_cons, append_nil_l.
        cbn [digits_from]. change (0 * 10 + digit_value "0")%N with 0%N.
        rewrite digits_from_app, digits_from_zeros.
        rewrite N.mul_0_l. exact Hv.
      + rewrite length_append. fold k.
        assert (String.length (zeros (Z.to_nat (- (p + k)))) =
                Z.to_nat (- (p + k))) as ->.
        { generalize (Z.to_nat (- (p + k))). intros n.
          induction n as [|n IH]; cbn; congruence. }
        unfold k. lia.
    - rewrite all_digits_app, all_digits_zeros. exact Hd. }
  (* one digit before the decimal point, and an exponent *)
  destruct ds as [|d ds'].
  - assert (El : forall tail, String a "" +:+ tail =
                              literal (String a "") EmptyString None +:+ tail)
      by reflexivity.
    change (String a "" +:+
            String "e"
              ((if 0 <=? p + k - 1 then "+" else "-") +:+
               show_N (Z.abs_N (p + k - 1))))
      with (literal (String a "") EmptyString (Some (p + k - 1))).
    rewrite scan_number_literal; try assumption; try reflexivity.
    + rewrite append_nil_r, Hv. do 3 f_equal. cbn [String.length] in *. lia.
    + now rewrite Bool.andb_false_r.
  - change (String a (String "." (String d ds')) +:+
            String "e"
              ((if 0 <=? p + k - 1 then "+" else "-") +:+
               show_N (Z.abs_N (p + k - 1))))
      with (literal (String a "") (String d ds') (Some (p + k - 1))).
    cbn [all_digits] in Hd. apply andb_prop in Hd as [Hd1 Hd2].
    rewrite scan_number_literal; try assumption.
    + change (String a "" +:+ String d ds') with (String a (String d ds')).
      rewrite Hv. do 3 f_equal. unfold k. cbn [String.length]. lia.
    + cbn [all_digits]. now rewrite Hd1.
    + now rewrite Bool.andb_false_r.
Qed.

(** Scanning the text of a double gives the double. *)
Lemma scan_number_toString (x : number) (c : ascii) (r : string) :
  is_double x = true -> number_stop c = true ->
  scan_number (toString x +:+ String c r) = Some (JNum x, String c r).
Proof.
  intros Hx Hc. destruct x as [u]. unfold toString. cbn [units].
  destruct (u =? 0) eqn:E0.
  - apply Z.eqb_eq in E0. subst u.
    apply (scan_number_literal false "0" "" "" None c r); auto.
  - apply Z.eqb_neq in E0.
    assert (Ha : 0 < Z.abs u) by lia.
    assert (Hd : is_double {| units := Z.abs u |} = true).
    { unfold is_double in *. cbn [units] in *. now rewrite Z.abs_idemp. }
    destruct (digits_of_reads_back (Z.abs u) Ha Hd) as [Hm Hr].
    destruct (digits_of (Z.abs u)) as [m p]. cbn [fst snd] in *.
    pose proof (scan_number_format (u <? 0) m p c r Hm Hc) as H.
    rewrite append_assoc, H. unfold number_value. rewrite Hr.
    assert (Hu : (if u <? 0 then - Z.abs u else Z.abs u) = u)
      by (destruct (u <? 0) eqn:E;
          [apply Z.ltb_lt in E | apply Z.ltb_ge in E]; lia).
    now rewrite Hu.
Qed.

(** Whole numbers below [2 ^ 53] in magnitude are doubles. *)
Lemma of_Z_is_double (z : Z) : Z.abs z < 2 ^ 53 -> is_double (of_Z z) = true.
Proof.
  intros Hz. unfold is_double, of_Z. cbn [units].
  assert (Hs : 0 < scale) by (rewrite scale_eq; apply Z.pow_pos_nonneg; lia).
  rewrite Z.abs_mul, (Z.abs_eq scale) by lia.
  destruct (Z.eq_dec z 0) as [-> | Hne]; [reflexivity |].
  assert (Ha : 0 < Z.abs z) by lia.
  pose proof (Z.log2_nonneg (Z.abs z)) as Hl0.
  assert (Hl : Z.log2 (Z.abs z) < 53) by (apply Z.log2_lt_pow2; lia).
  assert (Hlog : Z.log2 (Z.abs z * scale) = Z.log2 (Z.abs z) + 1074).
  { rewrite scale_eq, Z.log2_mul_pow2 by lia. lia. }
  apply andb_true_intro. split.
  - apply Z.ltb_lt. rewrite overflow_eq, scale_eq.
    replace 2098 with (1024 + 1074) by reflexivity.
    rewrite Z.pow_add_r by lia.
    apply Z.mul_lt_mono_pos_r; [apply Z.pow_pos_nonneg; lia |].
    apply Z.lt_trans with (2 ^ 53); [exact Hz |].
    apply Z.pow_lt_mono_r; lia.
  - rewrite Hlog. apply orb_true_intro. right. apply Z.eqb_eq.
    set (s := Z.log2 (Z.abs z) + 1074 - 52).
    rewrite scale_eq. replace 1074 with (1074 - s + s) at 1 by lia.
    rewrite Z.pow_add_r by (unfold s; lia).
    rewrite Z.mul_assoc. apply Z.mod_mul.
    apply Z.pow_nonzero; unfold s; lia.
Qed.

(** What [toString] prints for some doubles. *)
Example toString_examples :
  toString 60 = "60" /\
  toString (-160) = "-160" /\
  toString (halves 21) = "10.5" /\
  toString {| units := 5404319552844596 * 2 ^ 1020 |} = "0.30000000000000004" /\
  toString {| units := 1914029841632461 * 2 ^ 1031 |} = "217.60000000000002" /\
  toString {| units := 944473296573929 * 2 ^ 1001 |} = "1e-7" /\
  toString {| units := 1 |} = "5e-324" /\
  toString (10 ^ 21) = "1e+21" /\
  toString 123456789012345683968 = "123456789012345680000".
Proof. vm_compute. repeat split. Qed.

(** What [JSON.parse] reads some number literals as. *)
Example parse_number_examples :
  Json.parse "10.50" = Some (JNum (halves 21)) /\
  Json.parse "1E2" = Some (JNum 100) /\
  Json.parse "0.1" = Some (JNum {| units := 3602879701896397 * 2 ^ 1019 |}) /\
  Json.parse "9007199254740993" = Some (JNum 9007199254740992) /\
  Json.parse "1e400" = Some (JInfinity false) /\
  Json.parse "1e-400" = Some (JNum 0) /\
  Json.parse "01" = None /\ Json.parse "1." = None /\ Json.parse ".5" = None.
Proof. vm_compute. repeat split. Qed.

Lemma digit_dispatch (a : ascii) :
  is_digit a = true ->
  Ascii.eqb a "-" = false /\ is_ws a = false /\ Ascii.eqb a "[" = false /\
  Ascii.eqb a "{" = false /\ Ascii.eqb a dquote = false /\
  Ascii.eqb a "t" = false /\ Ascii.eqb a "f" = false /\ Ascii.eqb a "n" = false.
Proof.
  destruct a as [[] [] [] [] [] [] [] []]; intros H;
    solve [discriminate H | repeat split].
Qed.

(** ** Values, members and elements *)

Lemma quote_append (s rest : string) :
  quote s +:+ rest = String dquote (escape s +:+ String dquote rest).
Proof.
  unfold quote.
  now rewrite append_cons, append_assoc, append_cons, append_nil_l.
Qed.

Lemma parse_value_string (f : nat) (s rest : string) :
  parse_value (S f) (quote s +:+ rest) = Some (JStr s, rest).
Proof.
  rewrite quote_append. cbn [parse_value skip_ws].
  change (is_ws dquote) with false. cbv iota.
  change (Ascii.eqb dquote "[") with false.
  change (Ascii.eqb dquote "{") with false.
  change (Ascii.eqb dquote dquote) with true. cbv iota.
  now rewrite scan_string_escape.
Qed.

(** A text that scans as a number is parsed as that number. *)
Lemma parse_value_scan_number (f : nat) (s : string) (v : json)
    (rest : string) :
  scan_number s = Some (v, rest) -> parse_value (S f) s = Some (v, rest).
Proof.
  intros H. destruct s as [|a s]; [discriminate H |].
  destruct (Ascii.eqb a "-") eqn:Em.
  - apply Ascii.eqb_eq in Em. subst a. exact H.
  - assert (Ha : is_digit a = true).
    { unfold scan_number in H. rewrite Em in H. cbn [span_digits] in H.
      destruct (is_digit a); [reflexivity | discriminate H]. }
    destruct (digit_dispatch a Ha) as (_ & H1 & H2 & H3 & H4 & H5 & H6 & H7).
    cbn [parse_value skip_ws]. now rewrite H1, H2, H3, H4, H5, H6, H7.
Qed.

Lemma parse_value_number (f : nat) (x : number) (c : ascii) (r : string) :
  is_double x = true -> number_stop c = true ->
  parse_value (S f) (toString x +:+ String c r) = Some (JNum x, String c r).
Proof.
  intros Hx Hc. now apply parse_value_scan_number, scan_number_toString.
Qed.

Lemma parse_members_more (f : nat) (k : string) (v : json)
    (text more : string) :
  parse_value f (text +:+ String "," more) = Some (v, String "," more) ->
  parse_members (S f) (quote k +:+ String ":" (text +:+ String "," more)) =
  match parse_members f more with
  | Some (ms, rest) => Some ((k, v) :: ms, rest)
  | None => None
  end.
Proof.
  intros Hv. rewrite quote_append. cbn [parse_members skip_ws].
  change (is_ws dquote) with false. cbv iota.
  change (Ascii.eqb dquote dquote) with true. cbv iota.
  rewrite scan_string_escape. cbn [skip_ws].
  change (is_ws ":") with false. cbv iota.
  change (Ascii.eqb ":" ":") with true. cbv iota.
  rewrite Hv. reflexivity.
Qed.

Lemma parse_members_last (f : nat) (k : string) (v : json)
    (text rest : string) :
  parse_value f (text +:+ String "}" rest) = Some (v, String "}" rest) ->
  parse_members (S f) (quote k +:+ String ":" (text +:+ String "}" rest)) =
  Some ([(k, v)], rest).
Proof.
  intros Hv. rewrite quote_append. cbn [parse_members skip_ws].
  change (is_ws dquote) with false. cbv iota.
  change (Ascii.eqb dquote dquote) with true. cbv iota.
  rewrite scan_string_escape. cbn [skip_ws].
  change (is_ws ":") with false. cbv iota.
  change (Ascii.eqb ":" ":") with true. cbv iota.
  rewrite Hv. reflexivity.
Qed.

Lemma parse_value_object (f : nat) (k text : string)
    (ms : list (string * json)) (rest : string) :
  parse_members f (quote k +:+ text) = Some (ms, rest) ->
  parse_value (S f) (String "{" (quote k +:+ text)) = Some (JObj ms, rest).
Proof.
  intros Hm. cbn [parse_value skip_ws].
  change (is_ws "{") with false. cbv iota.
  change (Ascii.eqb "{" "[") with false.
  change (Ascii.eqb "{" "{") with true. cbv iota.
  rewrite Hm. rewrite quote_append. cbn [skip_ws].
  change (is_ws dquote) with false. cbv iota.
  change (Ascii.eqb dquote "}") with false. reflexivity.
Qed.

Lemma parse_elements_more (f : nat) (v : json) (text more : string) :
  parse_value f (text +:+ String "," more) = Some (v, String "," more) ->
  parse_elements (S f) (text +:+ String "," more) =
  match parse_elements f more with
  | Some (vs, rest) => Some (v :: vs, rest)
  | None => None
  end.
Proof. intros Hv. cbn [parse_elements]. rewrite Hv. reflexivity. Qed.

Lemma parse_elements_last (f : nat) (v : json) (text rest : string) :
  parse_value f (text +:+ String "]" rest) = Some (v, String "]" rest) ->
  parse_elements (S f) (text +:+ String "]" rest) = Some ([v], rest).
Proof. intros Hv. cbn [parse_elements]. rewrite Hv. reflexivity. Qed.

Lemma parse_value_array (f : nat) (text : string) (vs : list json)
    (rest : string) :
  parse_elements f (String "{" text) = Some (vs, rest) ->
  parse_value (S f) (String "[" (String "{" text)) = Some (JArr vs, rest).
Proof.
  intros He. cbn [parse_value skip_ws].
  change (is_ws "[") with false. cbv iota.
  change (Ascii.eqb "[" "[") with true. cbv iota.
  change (is_ws "{") with false. cbv iota.
  change (Ascii.eqb "{" "]") with false. cbv iota.
  rewrite He. reflexivity.
Qed.

(** ** The fuel of the parser *)

Lemma skip_ws_length (s : string) :
  (String.length (skip_ws s) <= String.length s)%nat.
Proof.
  induction s as [|c s IH]; cbn [skip_ws String.length]; [lia |].
  destruct (is_ws c); cbn [String.length]; lia.
Qed.

Lemma span_digits_length (s : string) :
  (String.length (fst (span_digits s)) + String.length (snd (span_digits s))
   = String.length s)%nat.
Proof.
  induction s as [|c s IH]; cbn [span_digits]; [reflexivity |].
  destruct (is_digit c); [|reflexivity].
  destruct (span_digits s) as [ds rest]. cbn [fst snd String.length] in *. lia.
Qed.

Lemma utf8_length (n : N) (k : string) :
  (String.length k < String.length (utf8 n k))%nat.
Proof.
  unfold utf8. destruct (n <? 128)%N, (n <? 2048)%N; cbn [String.length]; lia.
Qed.

Lemma scan_string_length (s t rest : string) :
  scan_string s = Some (t, rest) -> (String.length rest < String.length s)%nat.
Proof.
  remember (String.length s) as n eqn:Hn. revert s t rest Hn.
  induction n as [n IH] using lt_wf_ind. intros s t rest -> H.
  destruct s as [|c r]; [discriminate H |]. cbn [scan_string] in H.
  cbn [String.length].
  destruct (Ascii.eqb c dquote); [injection H as _ <-; lia |].
  destruct (Ascii.eqb c backslash).
  - destruct r as [|e r1]; [discriminate H |].
    destruct (Ascii.eqb e "u").
    + destruct r1 as [|h1 [|h2 [|h3 [|h4 r2]]]]; try discriminate H.
      destruct (hex4 h1 h2 h3 h4); [|discriminate H].
      destruct (scan_string r2) as [[t' rest']|] eqn:E; [|discriminate H].
      injection H as _ <-.
      apply (IH (String.length r2)) in E; cbn [String.length]; lia.
    + destruct (simple_escape e); [|discriminate H].
      destruct (scan_string r1) as [[t' rest']|] eqn:E; [|discriminate H].
      injection H as _ <-.
      apply (IH (String.length r1)) in E; cbn [String.length]; lia.
  - destruct (nat_of_ascii c <? 32)%nat; [discriminate H |].
    destruct (scan_string r) as [[t' rest']|] eqn:E; [|discriminate H].
    injection H as _ <-.
    apply (IH (String.length r)) in E; cbn [String.length]; lia.
Qed.

Lemma scan_fraction_length (s frac rest : string) :
  scan_fraction s = Some (frac, rest) ->
  (String.length rest <= String.length s)%nat.
Proof.
  unfold scan_fraction. destruct s as [|c r]; [intros [= _ <-]; lia |].
  destruct (Ascii.eqb c "."); [|intros [= _ <-]; lia].
  pose proof (span_digits_length r) as Hl.
  destruct (span_digits r) as [[|d ds] rest']; [discriminate |].
  intros [= _ <-]. cbn [fst snd String.length] in *. lia.
Qed.

Lemma scan_exponent_length (s : string) (e : Z) (rest : string) :
  scan_exponent s = Some (e, rest) ->
  (String.length rest <= String.length s)%nat.
Proof.
  unfold scan_exponent. destruct s as [|c r]; [intros [= _ <-]; lia |].
  destruct (Ascii.eqb c "e" || Ascii.eqb c "E")%bool; [|intros [= _ <-]; lia].
  assert (Hr : forall (r1 : string) (f : string -> Z),
             (String.length r1 <= String.length r)%nat ->
             match span_digits r1 with
             | (EmptyString, _) => None
             | (es, rest0) => Some (f es, rest0)
             end = Some (e, rest) ->
             (String.length rest <= String.length (String c r))%nat).
  { intros r1 f Hle. pose proof (span_digits_length r1) as Hl.
    destruct (span_digits r1) as [[|d ds] rest']; [discriminate |].
    intros [= _ <-]. cbn [fst snd String.length] in *. lia. }
  destruct r as [|g r'].
  - cbn. discriminate.
  - destruct (Ascii.eqb g "+"); [|destruct (Ascii.eqb g "-")];
      cbv beta iota; intros H.
    + apply (Hr r' (fun es => Z.of_N (digits_value es)));
        [cbn [String.length]; lia | exact H].
    + apply (Hr r' (fun es => - Z.of_N (digits_value es)));
        [cbn [String.length]; lia | exact H].
    + apply (Hr (String g r') (fun es => Z.of_N (digits_value es)));
        [cbn [String.length]; lia | exact H].
Qed.

Lemma scan_number_length (s : string) (v : json) (rest : string) :
  scan_number s = Some (v, rest) -> (String.length rest < String.length s)%nat.
Proof.
  unfold scan_number.
  destruct s as [|c r]; [|destruct (Ascii.eqb c "-")]; cbv beta iota;
    match goal with
    | |- context [span_digits ?t] =>
        pose proof (span_digits_length t) as Hl;
        destruct (span_digits t) as [[|lead ds] s2]; [discriminate |]
    end;
    (destruct (Ascii.eqb lead "0" && negb (String.eqb ds ""))%bool;
       [discriminate |]);
    (destruct (scan_fraction s2) as [[frac s3]|] eqn:Ef; [|discriminate]);
    (destruct (scan_exponent s3) as [[e s4]|] eqn:Ee; [|discriminate]);
    apply scan_fraction_length in Ef; apply scan_exponent_length in Ee;
    cbn [fst snd String.length] in *; intros [= _ <-]; lia.
Qed.

Lemma expect_length (w s rest : string) :
  expect w s = Some rest -> (String.length rest <= String.length s)%nat.
Proof.
  revert s. induction w as [|c w IH]; intros s; cbn [expect].
  - intros [= <-]. lia.
  - destruct s as [|c' s']; [discriminate |].
    destruct (Ascii.eqb c c'); [|discriminate].
    intros H. apply IH in H. cbn [String.length]. lia.
Qed.

(** A parse that succeeds with some fuel consumes at least one character, and
    succeeds alike with any fuel that is at least the number of characters it
    consumes. *)
Lemma parse_fuel (f : nat) :
  (forall s v rest,
     parse_value f s = Some (v, rest) ->
     (String.length rest < String.length s)%nat /\
     forall f', (String.length s - String.length rest <= f')%nat ->
                parse_value f' s = Some (v, rest)) /\
  (forall s vs rest,
     parse_elements f s = Some (vs, rest) ->
     (String.length rest < String.length s)%nat /\
     forall f', (String.length s - String.length rest <= f')%nat ->
                parse_elements f' s = Some (vs, rest)) /\
  (forall s ms rest,
     parse_members f s = Some (ms, rest) ->
     (String.length rest < String.length s)%nat /\
     forall f', (String.length s - String.length rest <= f')%nat ->
                parse_members f' s = Some (ms, rest)).
Proof.
  induction f as [|f (IHv & IHe & IHm)]; [repeat split; discriminate |].
  split; [|split].
  - intros s v rest H. cbn [parse_value] in H.
    pose proof (skip_ws_length s) as Hws.
    destruct (skip_ws s) as [|c r] eqn:Es; [discriminate H |].
    cbn [String.length] in Hws.
    destruct (Ascii.eqb c "[") eqn:E1.
    { pose proof (skip_ws_length r) as Hwr.
      destruct (skip_ws r) as [|c2 r2] eqn:Er; [discriminate H |].
      cbn [String.length] in Hwr.
      destruct (Ascii.eqb c2 "]") eqn:E2.
      - injection H as <- <-. split; [lia |].
        intros [|f'] Hf'; [lia |]. cbn [parse_value].
        now rewrite Es, E1, Er, E2.
      - destruct (parse_elements f r) as [[vs rest0]|] eqn:Ee;
          [|discriminate H].
        injection H as <- <-. apply IHe in Ee as [Hlt Hmono].
        split; [lia |]. intros [|f'] Hf'; [lia |]. cbn [parse_value].
        rewrite Es, E1, Er, E2, Hmono by lia. reflexivity. }
    destruct (Ascii.eqb c "{") eqn:E3.
    { pose proof (skip_ws_length r) as Hwr.
      destruct (skip_ws r) as [|c2 r2] eqn:Er; [discriminate H |].
      cbn [String.length] in Hwr.
      destruct (Ascii.eqb c2 "}") eqn:E2.
      - injection H as <- <-. split; [lia |].
        intros [|f'] Hf'; [lia |]. cbn [parse_value].
        now rewrite Es, E1, E3, Er, E2.
      - destruct (parse_members f r) as [[ms rest0]|] eqn:Em;
          [|discriminate H].
        injection H as <- <-. apply IHm in Em as [Hlt Hmono].
        split; [lia |]. intros [|f'] Hf'; [lia |]. cbn [parse_value].
        rewrite Es, E1, E3, Er, E2, Hmono by lia. reflexivity. }
    assert (Hlt : (String.length rest < String.length s)%nat).
    { destruct (Ascii.eqb c dquote).
      { destruct (scan_string r) as [[t rest0]|] eqn:Et; [|discriminate H].
        injection H as _ <-. apply scan_string_length in Et. lia. }
      destruct (Ascii.eqb c "t").
      { destruct (expect "rue" r) eqn:Ex; [|discriminate H].
        injection H as _ <-. apply expect_length in Ex. lia. }
      destruct (Ascii.eqb c "f").
      { destruct (expect "alse" r) eqn:Ex; [|discriminate H].
        injection H as _ <-. apply expect_length in Ex. lia. }
      destruct (Ascii.eqb c "n").
      { destruct (expect "ull" r) eqn:Ex; [|discriminate H].
        injection H as _ <-. apply expect_length in Ex. lia. }
      apply scan_number_length in H. cbn [String.length] in H. lia. }
    split; [exact Hlt |].
    intros [|f'] Hf'; [lia |]. cbn [parse_value].
    now rewrite Es, E1, E3.
  - intros s vs rest H. cbn [parse_elements] in H.
    destruct (parse_value f s) as [[v r]|] eqn:Ev; [|discriminate H].
    apply IHv in Ev as [Hlt Hmono].
    pose proof (skip_ws_length r) as Hwr.
    destruct (skip_ws r) as [|c r'] eqn:Er; [discriminate H |].
    cbn [String.length] in Hwr.
    destruct (Ascii.eqb c ",") eqn:E1.
    + destruct (parse_elements f r') as [[vs' rest0]|] eqn:Ee;
        [|discriminate H].
      injection H as <- <-. apply IHe in Ee as [Hlt' Hmono'].
      split; [lia |]. intros [|f'] Hf'; [lia |]. cbn [parse_elements].
      rewrite Hmono, Er, E1, Hmono' by lia. reflexivity.
    + destruct (Ascii.eqb c "]") eqn:E2; [|discriminate H].
      injection H as <- <-.
      split; [lia |]. intros [|f'] Hf'; [lia |]. cbn [parse_elements].
      rewrite Hmono, Er, E1, E2 by lia. reflexivity.
  - intros s ms rest H. cbn [parse_members] in H.
    pose proof (skip_ws_length s) as Hws.
    destruct (skip_ws s) as [|q r] eqn:Es; [discriminate H |].
    cbn [String.length] in Hws.
    destruct (Ascii.eqb q dquote) eqn:E0; [|discriminate H].
    destruct (scan_string r) as [[k r1]|] eqn:Ek; [|discriminate H].
    pose proof (scan_string_length _ _ _ Ek) as Hk.
    pose proof (skip_ws_length r1) as Hw1.
    destruct (skip_ws r1) as [|c1 r2] eqn:E1; [discriminate H |].
    cbn [String.length] in Hw1.
    destruct (Ascii.eqb c1 ":") eqn:Ec; [|discriminate H].
    destruct (parse_value f r2) as [[v r3]|] eqn:Ev; [|discriminate H].
    apply IHv in Ev as [Hlt Hmono].
    pose proof (skip_ws_length r3) as Hw3.
    destruct (skip_ws r3) as [|c3 r4] eqn:E3; [discriminate H |].
    cbn [String.length] in Hw3.
    destruct (Ascii.eqb c3 ",") eqn:E4.
    + destruct (parse_members f r4) as [[ms' rest0]|] eqn:Em;
        [|discriminate H].
      injection H as <- <-. apply IHm in Em as [Hlt' Hmono'].
      split; [lia |]. intros [|f'] Hf'; [lia |]. cbn [parse_members].
      rewrite Es, E0, Ek, E1, Ec, Hmono, E3, E4, Hmono' by lia. reflexivity.
    + destruct (Ascii.eqb c3 "}") eqn:E5; [|discriminate H].
      injection H as <- <-.
      split; [lia |]. intros [|f'] Hf'; [lia |]. cbn [parse_members].
      rewrite Es, E0, Ek, E1, Ec, Hmono, E3, E4, E5 by lia. reflexivity.
Qed.

(** The fuel [parse] supplies is enough: a text that some fuel parses
    completely is parsed by [parse], so [parse s = None] is a syntax error
    of [s] and never a shortage of fuel. *)
Lemma parse_fuel_adequate (f : nat) (s : string) (v : json) (rest : string) :
  parse_value f s = Some (v, rest) -> skip_ws rest = EmptyString ->
  Json.parse s = Some v.
Proof.
  intros H Hrest. apply (proj1 (parse_fuel f)) in H as [_ Hmono].
  unfold Json.parse. rewrite Hmono by lia. now rewrite Hrest.
Qed.

(** ** The stored text of an annotation set *)

(** The text of an annotation, followed by [rest], member by member. *)
Lemma annotation_text_members (a : Next.Annotation.t) (rest : string) :
  annotation_text a +:+ rest =
  String "{"
    (quote "id" +:+ String ":" (quote (Next.Annotation.id a) +:+ String ","
    (quote "x" +:+ String ":" (toString (Next.Annotation.x a) +:+ String ","
    (quote "y" +:+ String ":" (toString (Next.Annotation.y a) +:+ String ","
    (quote "width" +:+ String ":" (toString (Next.Annotation.width a) +:+
     String ","
    (quote "height" +:+ String ":" (toString (Next.Annotation.height a) +:+
     String ","
    (quote "color" +:+ String ":" (quote (Next.Annotation.color a) +:+
     String "}" rest)))))))))))).
Proof.
  unfold annotation_text, Next.to_json.
  cbn [stringify List.map join fst snd].
  repeat first [rewrite append_assoc | rewrite append_cons
               | rewrite append_nil_l].
  reflexivity.
Qed.

(** Parsing the text of an annotation gives the annotation's object. *)
Lemma parse_value_annotation (f : nat) (a : Next.Annotation.t) (rest : string) :
  doubles a = true ->
  parse_value (8 + f) (annotation_text a +:+ rest) =
  Some (Next.to_json a, rest).
Proof.
  intros Hd. unfold doubles in Hd.
  apply andb_prop in Hd as [Hd Hh]. apply andb_prop in Hd as [Hd Hw].
  apply andb_prop in Hd as [Hx Hy].
  rewrite annotation_text_members.
  cbn [Nat.add]. apply parse_value_object.
  rewrite (parse_members_more _ _ (JStr (Next.Annotation.id a)))
    by apply parse_value_string.
  rewrite (parse_members_more _ _ (JNum (Next.Annotation.x a)))
    by now apply parse_value_number.
  rewrite (parse_members_more _ _ (JNum (Next.Annotation.y a)))
    by now apply parse_value_number.
  rewrite (parse_members_more _ _ (JNum (Next.Annotation.width a)))
    by now apply parse_value_number.
  rewrite (parse_members_more _ _ (JNum (Next.Annotation.height a)))
    by now apply parse_value_number.
  rewrite (parse_members_last _ _ (JStr (Next.Annotation.color a)))
    by apply parse_value_string.
  reflexivity.
Qed.

Lemma annotations_text_cons (a b : Next.Annotation.t)
    (l : list Next.Annotation.t) :
  annotations_text (a :: b :: l) =
  annotation_text a +:+ String "," (annotations_text (b :: l)).
Proof. reflexivity. Qed.

(** Parsing the elements of a stored array gives the annotations' objects. *)
Lemma parse_elements_annotations (l : list Next.Annotation.t)
    (a : Next.Annotation.t) (f : nat) (rest : string) :
  Forall (fun a => doubles a = true) (a :: l) ->
  (length (a :: l) + 8 <= f)%nat ->
  parse_elements f (annotations_text (a :: l) +:+ String "]" rest) =
  Some (List.map Next.to_json (a :: l), rest).
Proof.
  revert a f. induction l as [|b l IH]; intros a f Hd Hf;
    apply Forall_cons_1 in Hd as [Ha Hd].
  - destruct f as [|f]; [simpl in Hf; lia |].
    replace f with (8 + (f - 8))%nat by (simpl in Hf; lia).
    change (annotations_text [a]) with (annotation_text a).
    now rewrite (parse_elements_last _ (Next.to_json a))
      by now apply parse_value_annotation.
  - destruct f as [|f]; [simpl in Hf; lia |].
    rewrite annotations_text_cons, append_assoc, append_cons.
    rewrite (parse_elements_more _ (Next.to_json a)).
    2:{ replace f with (8 + (f - 8))%nat by (simpl in Hf; lia).
        now apply parse_value_annotation. }
    rewrite IH by (assumption || (simpl in *; lia)). reflexivity.
Qed.

Lemma stringify_annotations (l : list Next.Annotation.t) :
  stringify (Next.annotations_to_json l) =
  String "[" (annotations_text l +:+ "]").
Proof.
  unfold Next.annotations_to_json, annotations_text. cbn [stringify].
  now rewrite List.map_map.
Qed.

(** [JSON.parse] undoes [JSON.stringify] on an annotation set. *)
Lemma parse_stringify_annotations (l : list Next.Annotation.t) :
  Forall (fun a => doubles a = true) l ->
  Json.parse (stringify (Next.annotations_to_json l)) =
  Some (Next.annotations_to_json l).
Proof.
  intros Hd. destruct l as [|a l]; [reflexivity |].
  apply (parse_fuel_adequate (S (length (a :: l) + 8)) _ _ EmptyString);
    [|reflexivity].
  rewrite stringify_annotations.
  assert (Hbrace : exists t, annotations_text (a :: l) +:+ "]" = String "{" t).
  { destruct l as [|b l].
    - change (annotations_text [a]) with (annotation_text a).
      rewrite annotation_text_members. eauto.
    - rewrite annotations_text_cons, append_assoc, annotation_text_members.
      eauto. }
  destruct Hbrace as (t & Ht). rewrite Ht.
  apply parse_value_array. rewrite <- Ht.
  now apply parse_elements_annotations.
Qed.

Lemma of_json_to_json (a : Next.Annotation.t) :
  Next.of_json (Next.to_json a) = Some a.
Proof. now destruct a. Qed.

(** Reading the parsed array back gives the annotations, by value. *)
Lemma annotations_of_to_json (l : list Next.Annotation.t) :
  Next.annotations_of_json (Next.annotations_to_json l) = Some l.
Proof.
  unfold Next.annotations_of_json, Next.annotations_to_json.
  induction l as [|a l IH]; [reflexivity |].
  cbn [List.map Next.all_of_json]. now rewrite of_json_to_json, IH.
Qed.

(** * The collection store *)

Lemma settle_last (cb : callbacks) (s : Mutation.store) (f : Mutation.flight)
    (ok : bool) (q : client) (reqs : list Z) :
  Mutation.settle cb (length (Mutation.active s)) ok
    {| Mutation.query := q; Mutation.requests := reqs;
       Mutation.active := Mutation.active s ++ [f] |} =
  {| Mutation.query :=
       on_settled cb (if ok then q else on_error cb (Mutation.ctx f) q);
     Mutation.requests := reqs;
     Mutation.active := Mutation.active s |}.
Proof.
  unfold Mutation.settle.
  cbn [Mutation.active Mutation.query Mutation.requests].
  rewrite list_lookup_middle by reflexivity.
  rewrite take_app_length.
  rewrite drop_ge by (rewrite length_app; simpl; lia).
  now rewrite app_nil_r.
Qed.

(** One delete from start to settlement, in either page. *)
Lemma delete_unfold (cb : callbacks) (id : Z) (ok : bool) (s : Mutation.store) :
  Mutation.delete cb id ok s =
  let '(q, c) := on_mutate cb id (Mutation.query s) in
  {| Mutation.query :=
       on_settled cb (if ok then q else on_error cb (Some c) q);
     Mutation.requests := Mutation.requests s ++ [id];
     Mutation.active := Mutation.active s |}.
Proof.
  unfold Mutation.delete, Mutation.mutate.
  destruct (on_mutate cb id (Mutation.query s)) as [q c].
  apply (settle_last cb s).
Qed.

(** C1. Rollback correctness: when the delete request of [delete(id)] fails,
    the cached list after the rollback is the list that was cached just
    before the optimistic removal, element for element and in the same
    order, in both pages.  The removal is undone as a whole: the mutation
    leaves nothing behind among the unsettled ones, and the rollback writes
    the captured list whatever the cache has come to hold in between. *)
Theorem rollback_restores_items
    (items : list ImageItem.t) (id : Z) (n : nat) (reqs : list Z)
    (others : list Mutation.flight) (later : client) :
  let s := {| Mutation.query := {| data := Some items; refetches := n |};
              Mutation.requests := reqs; Mutation.active := others |} in
  (data (Mutation.query (Mutation.delete Next.deleteImage id false s))
     = Some items /\
   Mutation.active (Mutation.delete Next.deleteImage id false s) = others /\
   data (Next.onError (Some (snd (Next.onMutate id (Mutation.query s)))) later)
     = Some items) /\
  (data (Mutation.query (Mutation.delete Part000.deleteImage id false s))
     = Some items /\
   Mutation.active (Mutation.delete Part000.deleteImage id false s) = others /\
   data (Part000.onError
           (Some (snd (Part000.onMutate id (Mutation.query s)))) later)
     = Some items).
Proof.
  intros s. rewrite !delete_unfold. repeat split.
Qed.

(** The scenario of the list [1, 2, 3]: [delete(2)] shows [1, 3] at once,
    and [1, 2, 3] again once the request has failed. *)
Example delete_2_of_3 :
  let s0 := Mutation.idle (Some [image 1; image 2; image 3]) in
  data (Mutation.query (Mutation.mutate Next.deleteImage 2 s0))
    = Some [image 1; image 3] /\
  data (Mutation.query (Mutation.delete Next.deleteImage 2 false s0))
    = Some [image 1; image 2; image 3].
Proof. split; reflexivity. Qed.

(** C2. Settlement always refetches: a [delete(id)] triggers exactly one
    refetch of the image list, whether its request succeeds or fails, in
    both pages; the refetch is started at settlement, none by the optimistic
    phase. *)
Theorem settlement_refetches_once (id : Z) (ok : bool) (s : Mutation.store) :
  (refetches (Mutation.query (Mutation.delete Next.deleteImage id ok s))
     = S (refetches (Mutation.query s)) /\
   refetches (Mutation.query (Mutation.mutate Next.deleteImage id s))
     = refetches (Mutation.query s)) /\
  (refetches (Mutation.query (Mutation.delete Part000.deleteImage id ok s))
     = S (refetches (Mutation.query s)) /\
   refetches (Mutation.query (Mutation.mutate Part000.deleteImage id s))
     = refetches (Mutation.query s)).
Proof.
  rewrite !delete_unfold. destruct s as [[d n] reqs act]. cbn.
  destruct ok, d as [items|]; repeat split.
Qed.

(** ** Refetches over a history of events *)

Section Settlement.

Variable cb : callbacks.
Hypothesis mutate_keeps :
  forall id q, refetches (fst (on_mutate cb id q)) = refetches q.
Hypothesis error_keeps :
  forall c q, refetches (on_error cb c q) = refetches q.
Hypothesis settled_refetches :
  forall q, refetches (on_settled cb q) = S (refetches q).

(** Each event keeps the balance: a mutation adds one unsettled delete, a
    settlement turns one unsettled delete into one refetch. *)
Lemma step_balance (s : Mutation.store) (e : Mutation.event) :
  (refetches (Mutation.query (Mutation.step cb s e))
   + length (Mutation.active (Mutation.step cb s e)))%nat =
  (refetches (Mutation.query s) + length (Mutation.active s)
   + Mutation.mutations [e])%nat.
Proof.
  destruct e as [id | k ok]; cbn [Mutation.step Mutation.mutations
    Mutation.is_mutate List.filter length].
  - unfold Mutation.mutate.
    pose proof (mutate_keeps id (Mutation.query s)) as H.
    destruct (on_mutate cb id (Mutation.query s)) as [q c].
    cbn [Mutation.query Mutation.active fst] in *.
    rewrite length_app, H. cbn [length]. lia.
  - unfold Mutation.settle.
    destruct (Mutation.active s !! k) as [f|] eqn:Hk; [|lia].
    apply lookup_lt_Some in Hk.
    cbn [Mutation.query Mutation.active].
    rewrite settled_refetches, length_app, length_take, length_drop.
    destruct ok; rewrite ?error_keeps; lia.
Qed.

(** Over any history, the refetches started and the deletes still unsettled
    add up to those at the start plus the deletes issued since: every
    settled delete has started exactly one refetch. *)
Lemma run_balance (es : list Mutation.event) (s : Mutation.store) :
  (refetches (Mutation.query (Mutation.run cb es s))
   + length (Mutation.active (Mutation.run cb es s)))%nat =
  (refetches (Mutation.query s) + length (Mutation.active s)
   + Mutation.mutations es)%nat.
Proof.
  revert s. induction es as [|e es IH]; intros s.
  - cbn. lia.
  - change (Mutation.run cb (e :: es) s)
      with (Mutation.run cb es (Mutation.step cb s e)).
    rewrite IH, step_balance.
    unfold Mutation.mutations. cbn [List.filter].
    destruct (Mutation.is_mutate e); cbn [length]; lia.
Qed.

End Settlement.

(** X8. Over any history of deletes and settlements, in both pages, the
    refetches started and the deletes still unsettled add up to those at the
    start plus the deletes issued since: every settled delete has started
    exactly one refetch, however the deletes overlap. *)
Lemma refetches_balance (es : list Mutation.event) (s : Mutation.store) :
  (refetches (Mutation.query (Mutation.run Next.deleteImage es s))
   + length (Mutation.active (Mutation.run Next.deleteImage es s)))%nat =
  (refetches (Mutation.query s) + length (Mutation.active s)
   + Mutation.mutations es)%nat /\
  (refetches (Mutation.query (Mutation.run Part000.deleteImage es s))
   + length (Mutation.active (Mutation.run Part000.deleteImage es s)))%nat =
  (refetches (Mutation.query s) + length (Mutation.active s)
   + Mutation.mutations es)%nat.
Proof.
  split; apply run_balance; try reflexivity.
  - intros [[[l|]]|] q; reflexivity.
  - intros [[[l|]]|] q; reflexivity.
Qed.

(** C9, counterexample: with the list [1, 2, 3] cached, a second
    [delete(2)] issued while the first is unsettled is accepted at once; two
    sequences for image 2 are then active, and when both requests fail the
    second rollback puts back the list without image 2. *)
Lemma second_delete_interleaves :
  let s0 := Mutation.idle (Some [image 1; image 2; image 3]) in
  let s2 := Mutation.run Next.deleteImage
              [Mutation.Mutate 2; Mutation.Mutate 2] s0 in
  let s4 := Mutation.run Next.deleteImage
              [Mutation.Settle 0 false; Mutation.Settle 0 false] s2 in
  Mutation.active_for 2 s2 = 2%nat /\
  Mutation.requests s2 = [2; 2] /\
  data (Mutation.query s4) = Some [image 1; image 3] /\
  Mutation.run Part000.deleteImage
    [Mutation.Mutate 2; Mutation.Mutate 2;
     Mutation.Settle 0 false; Mutation.Settle 0 false] s0 = s4.
Proof. repeat split. Qed.

Lemma active_for_app (id : Z) (q : client) (reqs : list Z)
    (fs : list Mutation.flight) (f : Mutation.flight) :
  Mutation.active_for id
    {| Mutation.query := q; Mutation.requests := reqs;
       Mutation.active := fs ++ [f] |} =
  (length (filter (fun g => Mutation.variables g = id) fs) +
   (if decide (Mutation.variables f = id) then 1 else 0))%nat.
Proof.
  unfold Mutation.active_for. cbn [Mutation.active].
  rewrite filter_app, length_app. f_equal.
  rewrite filter_cons, filter_nil. now destruct (decide _).
Qed.

(** C9, as the code has it: [mutate(id)] never rejects or defers.  Whatever
    is unsettled, in both pages it issues the delete request at once and
    adds one more active sequence for [id], whose snapshot is the list
    cached at that moment. *)
Theorem mutate_is_never_refused (id : Z) (s : Mutation.store) :
  (Mutation.active_for id (Mutation.mutate Next.deleteImage id s)
     = S (Mutation.active_for id s) /\
   Mutation.requests (Mutation.mutate Next.deleteImage id s)
     = Mutation.requests s ++ [id] /\
   Mutation.active (Mutation.mutate Next.deleteImage id s)
     = Mutation.active s ++
       [{| Mutation.variables := id;
           Mutation.ctx := Some {| prev := data (Mutation.query s) |} |}]) /\
  (Mutation.active_for id (Mutation.mutate Part000.deleteImage id s)
     = S (Mutation.active_for id s) /\
   Mutation.requests (Mutation.mutate Part000.deleteImage id s)
     = Mutation.requests s ++ [id] /\
   Mutation.active (Mutation.mutate Part000.deleteImage id s)
     = Mutation.active s ++
       [{| Mutation.variables := id;
           Mutation.ctx := Some {| prev := data (Mutation.query s) |} |}]).
Proof.
  unfold Mutation.mutate. cbn [on_mutate Next.deleteImage Part000.deleteImage].
  unfold Next.onMutate, Part000.onMutate.
  rewrite !active_for_app. cbn [Mutation.variables].
  destruct (decide (id = id)) as [_|Hne]; [|contradiction].
  unfold Mutation.active_for. repeat split; lia.
Qed.

(** * Loading the list *)

(** C5, counterexample: an array whose element is not shaped like an
    [ImageItem] is returned as the image list by both pages, and
    [src/next.js] returns a body that is no array as well. *)
Lemma unshaped_list_is_accepted :
  image_list_shaped (JArr [JNull]) = false /\
  Part000.fetchImages (Resolves (JArr [JNull])) = Resolved (JArr [JNull]) /\
  Next.fetchImages (Resolves (JArr [JNull])) = Resolved (JArr [JNull]) /\
  Next.fetchImages (Resolves (JObj [])) = Resolved (JObj []).
Proof. repeat split. Qed.

(** C5, as the code has it: [fetchImages] of [part_000] fails with the plain
    [Error] "Images response is not an array" exactly when the body is not
    an array, and returns every array as it came, whatever its elements; a
    transport failure is an [AxiosError], a different kind of error.
    [fetchImages] of [src/next.js] returns every body as it came. *)
Theorem fetchImages_checks_array_only (body : json) (message : string) :
  Part000.fetchImages (Resolves body) =
    (if isArray body then Resolved body
     else Rejected (Error "Images response is not an array")) /\
  Part000.fetchImages (Rejects message) = Rejected (AxiosError message) /\
  AxiosError message <> Error "Images response is not an array" /\
  Next.fetchImages (Resolves body) = Resolved body /\
  Next.fetchImages (Rejects message) = Rejected (AxiosError message).
Proof.
  repeat split; try discriminate.
  unfold Part000.fetchImages. now destruct (isArray body).
Qed.

(** C6, counterexample: a body that is no array is a validation failure,
    and [part_000] asks for it again twice before giving up. *)
Lemma validation_failure_is_retried :
  Retryer.run Part000.retry
    (fun _ => Part000.fetchImages (Resolves (JObj []))) 3 0 =
  Some (Rejected (Error "Images response is not an array"), 2%nat).
Proof. reflexivity. Qed.

(** C6, as the code has it: under [part_000]'s retry predicate the query of
    the image list always ends within three calls of [fetchImages], that is
    after at most 2 retries, and after exactly 2 when every call fails,
    whether with a transport error or with the validation error. *)
Theorem load_retries_any_failure_twice
    (responses : nat -> response) (extra : nat) :
  exists (out : outcome json) (n : nat),
    Retryer.run Part000.retry (fun k => Part000.fetchImages (responses k))
      (3 + extra) 0 = Some (out, n) /\
    (n <= 2)%nat /\
    ((exists e0 e1 e2,
        Part000.fetchImages (responses 0%nat) = Rejected e0 /\
        Part000.fetchImages (responses 1%nat) = Rejected e1 /\
        Part000.fetchImages (responses 2%nat) = Rejected e2) <->
     n = 2%nat /\ exists e, out = Rejected e).
Proof.
  cbn [Nat.add Retryer.run Part000.retry Nat.ltb Nat.leb].
  destruct (Part000.fetchImages (responses 0%nat)) as [d0|e0].
  { eexists _, _. split; [reflexivity |]. split; [lia |].
    split; [intros (? & ? & ? & [=] & _) | intros [[=] _]]. }
  destruct (Part000.fetchImages (responses 1%nat)) as [d1|e1].
  { eexists _, _. split; [reflexivity |]. split; [lia |].
    split; [intros (? & ? & ? & _ & [=] & _) | intros [[=] _]]. }
  destruct (Part000.fetchImages (responses 2%nat)) as [d2|e2].
  { eexists _, _. split; [reflexivity |]. split; [lia |].
    split; [intros (? & ? & ? & _ & _ & [=]) | intros [_ [? [=]]]]. }
  eexists _, _. split; [reflexivity |]. split; [lia |].
  split; [intros _; split; eauto | intros _; eauto 6].
Qed.

(** * The annotation store *)

(** ** Identifiers *)

(** The identifier [`${Date.now()}-${Math.random()}`] determines both of its
    parts. *)
Lemma new_id_inj (now now' : N) (rnd rnd' : string) :
  show_N now +:+ String "-" rnd = show_N now' +:+ String "-" rnd' ->
  now = now' /\ rnd = rnd'.
Proof.
  intros H. apply (f_equal span_digits) in H.
  unfold show_N in H. rewrite !span_digits_uint in H by reflexivity.
  injection H as H1 H2. split; [|exact H2].
  apply DecimalN.Unsigned.to_uint_inj.
  apply (f_equal NilEmpty.uint_of_string) in H1.
  rewrite !NilEmpty.usu in H1. now injection H1.
Qed.

Lemma add_all_eq (draws : list (string * (N * string)))
    (prev : list Next.Annotation.t) :
  add_all draws prev =
  prev ++
  List.map (fun d => Next.new_annotation (fst d) (fst (snd d)) (snd (snd d)))
    draws.
Proof.
  revert prev. induction draws as [|d draws IH]; intros prev.
  - now rewrite app_nil_r.
  - cbn [add_all fold_left List.map]. unfold add_all in IH. rewrite IH.
    unfold Next.addAnnotation. now rewrite <- app_assoc.
Qed.

Lemma adds_eq (uuids : list string) (s : Part000.state) :
  Part000.adds uuids s =
  {| Part000.annotations :=
       Part000.annotations s ++
       imap (fun k u =>
               {| Part000.Annotation.id := u;
                  Part000.Annotation.x :=
                    50 + (Part000.counter s + 1 + Z.of_nat k) * 6;
                  Part000.Annotation.y :=
                    50 + (Part000.counter s + 1 + Z.of_nat k) * 6;
                  Part000.Annotation.width := 160;
                  Part000.Annotation.height := 100 |}) uuids;
     Part000.counter := Part000.counter s + Z.of_nat (length uuids) |}.
Proof.
  revert s. induction uuids as [|u uuids IH]; intros [anns c].
  - cbn. now rewrite app_nil_r, Z.add_0_r.
  - cbn [Part000.adds fold_left]. unfold Part000.adds in IH. rewrite IH.
    unfold Part000.addAnnotation.
    cbn [Part000.annotations Part000.counter imap length].
    rewrite <- app_assoc. cbn [app].
    replace (c + Z.of_nat (S (length uuids)))
      with (c + 1 + Z.of_nat (length uuids)) by lia.
    replace (c + 1 + Z.of_nat 0) with (c + 1) by lia.
    match goal with
    | |- {| Part000.annotations := _ ++ _ :: ?l1; Part000.counter := _ |} =
         {| Part000.annotations := _ ++ _ :: ?l2; Part000.counter := _ |} =>
        replace l2 with l1; [reflexivity |]
    end.
    apply imap_ext. intros k v _. cbn [compose].
    replace (c + 1 + 1 + Z.of_nat k) with (c + 1 + Z.of_nat (S k)) by lia.
    reflexivity.
Qed.

(** C7, counterexample: two [add()] calls of [src/next.js] in the same
    millisecond that draw the same random number give two annotations with
    one id. *)
Lemma same_draw_same_id :
  let l := Next.addAnnotation "#00ff00" 1700000000000 "0.5"
             (Next.addAnnotation "#ff0000" 1700000000000 "0.5" []) in
  List.map Next.Annotation.id l = ["1700000000000-0.5"; "1700000000000-0.5"]
  /\ ~ NoDup (List.map Next.Annotation.id l).
Proof.
  split; [reflexivity |].
  intros H. apply NoDup_cons_1_1 in H. apply H. cbn. left.
Qed.

(** C7, as the code has it: [N] calls of [add()] on an empty set give [N]
    annotations, whose ids are, in order, the identifiers drawn; they are
    pairwise distinct exactly when the draws are: the pairs of [Date.now()]
    and [Math.random()] in [src/next.js], the values of
    [crypto.randomUUID()] in [part_000]. *)
Theorem add_ids_are_the_draws
    (draws : list (string * (N * string))) (uuids : list string) :
  (length (add_all draws []) = length draws /\
   List.map Next.Annotation.id (add_all draws []) =
     List.map (fun d => draw_id (snd d)) draws /\
   (NoDup (List.map Next.Annotation.id (add_all draws [])) <->
    NoDup (List.map snd draws))) /\
  (length (Part000.annotations (Part000.adds uuids Part000.initial))
     = length uuids /\
   List.map Part000.Annotation.id
     (Part000.annotations (Part000.adds uuids Part000.initial)) = uuids).
Proof.
  assert (Hids : List.map Next.Annotation.id (add_all draws []) =
                 List.map draw_id (List.map snd draws)).
  { rewrite add_all_eq, app_nil_l, !List.map_map. reflexivity. }
  repeat split.
  - now rewrite add_all_eq, app_nil_l, length_map.
  - now rewrite Hids, List.map_map.
  - rewrite Hids. apply NoDup_fmap_1.
  - rewrite Hids. apply NoDup_fmap_2.
    intros [n r] [n' r'] H. unfold draw_id in H. cbn [fst snd] in H.
    apply new_id_inj in H as [-> ->]. reflexivity.
  - rewrite adds_eq. cbn. now rewrite length_imap.
  - rewrite adds_eq. cbn [Part000.annotations Part000.initial app].
    apply list_eq. intros k.
    rewrite list_lookup_fmap, list_lookup_imap.
    now destruct (uuids !! k).
Qed.

(** ** Default geometry *)

(** C8, counterexample: in [src/next.js] the second annotation added to an
    empty set lies exactly on the first. *)
Lemma second_annotation_overlaps :
  Next.addAnnotation "#00ff00" 1700000000001 "0.75"
    (Next.addAnnotation "#ff0000" 1700000000000 "0.25" []) =
  [ {| Next.Annotation.id := "1700000000000-0.25";
       Next.Annotation.x := 60; Next.Annotation.y := 60;
       Next.Annotation.width := 160; Next.Annotation.height := 100;
       Next.Annotation.color := "#ff0000" |};
    {| Next.Annotation.id := "1700000000001-0.75";
       Next.Annotation.x := 60; Next.Annotation.y := 60;
       Next.Annotation.width := 160; Next.Annotation.height := 100;
       Next.Annotation.color := "#00ff00" |} ].
Proof. reflexivity. Qed.

(** C8, as the code has it: in [part_000] the [k]-th annotation created by
    a hook instance (counting from 0) is placed at [x = y = 56 + 6k], so
    that each one is 6 further right and 6 further down than the one created
    before it; in [src/next.js] every annotation is created at
    [x = y = 60]. *)
Theorem default_geometry
    (uuids : list string) (draws : list (string * (N * string))) :
  Part000.annotations (Part000.adds uuids Part000.initial) =
    imap (fun k u =>
            {| Part000.Annotation.id := u;
               Part000.Annotation.x := 56 + 6 * Z.of_nat k;
               Part000.Annotation.y := 56 + 6 * Z.of_nat k;
               Part000.Annotation.width := 160;
               Part000.Annotation.height := 100 |}) uuids /\
  List.map (fun a => (Next.Annotation.x a, Next.Annotation.y a))
    (add_all draws []) = List.map (fun _ => (of_Z 60, of_Z 60)) draws.
Proof.
  split.
  - rewrite adds_eq. cbn [Part000.annotations Part000.initial app].
    apply imap_ext. intros k u _. cbn. f_equal; lia.
  - rewrite add_all_eq, app_nil_l, List.map_map. reflexivity.
Qed.

(** ** Moving an annotation *)

(** C10. [move(id, newX, newY)], the updater of [onDragEnd]: the set keeps
    its length and the order of its ids; if no annotation has the id the set
    is unchanged; an annotation with another id is unchanged; an annotation
    with the id keeps its id, width, height and color and gets the new [x]
    and [y]. *)
Theorem onDragEnd_frame (id : string) (x y : number)
    (prev : list Next.Annotation.t) :
  length (Next.onDragEnd id x y prev) = length prev /\
  List.map Next.Annotation.id (Next.onDragEnd id x y prev) =
    List.map Next.Annotation.id prev /\
  (Forall (fun a => Next.Annotation.id a <> id) prev ->
   Next.onDragEnd id x y prev = prev) /\
  (forall (k : nat) (p : Next.Annotation.t),
     prev !! k = Some p ->
     exists p',
       Next.onDragEnd id x y prev !! k = Some p' /\
       Next.Annotation.id p' = Next.Annotation.id p /\
       Next.Annotation.width p' = Next.Annotation.width p /\
       Next.Annotation.height p' = Next.Annotation.height p /\
       Next.Annotation.color p' = Next.Annotation.color p /\
       (Next.Annotation.id p <> id -> p' = p) /\
       (Next.Annotation.id p = id ->
        Next.Annotation.x p' = x /\ Next.Annotation.y p' = y)).
Proof.
  unfold Next.onDragEnd. repeat split.
  - apply length_map.
  - rewrite List.map_map. apply List.map_ext. intros a.
    now destruct (String.eqb (Next.Annotation.id a) id).
  - intros H. induction H as [|a l Ha _ IH]; [reflexivity |].
    cbn [List.map]. rewrite IH.
    apply String.eqb_neq in Ha. now rewrite Ha.
  - intros k p Hk. eexists. split.
    + change (List.map ?f prev) with (f <$> prev).
      rewrite list_lookup_fmap, Hk. reflexivity.
    + destruct (String.eqb_spec (Next.Annotation.id p) id) as [E|E];
        cbn; repeat split; try reflexivity; try contradiction; auto.
Qed.

Lemma onDragEnd_frame_witness :
  let a := Next.new_annotation "#ff1744" 1700000000000 "0.25" in
  let b := Next.new_annotation "#2979ff" 1700000000001 "0.75" in
  Next.onDragEnd "absent" 10 20 [a; b] = [a; b] /\
  exists b',
    Next.onDragEnd (Next.Annotation.id b) 10 20 [a; b] !! 1%nat = Some b' /\
    Next.Annotation.x b' = 10 /\ Next.Annotation.y b' = 20.
Proof.
  intros a b. split.
  - apply (onDragEnd_frame "absent" 10 20 [a; b]).
    repeat constructor; discriminate.
  - destruct (proj2 (proj2 (proj2
        (onDragEnd_frame (Next.Annotation.id b) 10 20 [a; b]))) 1%nat b
        eq_refl) as (b' & Hb & _ & _ & _ & _ & _ & Hxy).
    exists b'. split; [exact Hb | exact (Hxy eq_refl)].
Defined.

(** ** Persistence *)

Lemma setAnnotations_persisted (imageId : Z)
    (updater : list Next.Annotation.t -> list Next.Annotation.t)
    (s : Next.state) :
  persisted imageId (Next.setAnnotations imageId updater s).
Proof. apply lookup_insert_eq. Qed.

Lemma load_effect_stored (imageId : Z) (st : gmap string string)
    (l : list Next.Annotation.t) :
  Forall (fun a => doubles a = true) l ->
  st !! Next.storage_key imageId =
    Some (stringify (Next.annotations_to_json l)) ->
  Next.load_effect imageId st = Next.Parsed l.
Proof.
  intros Hd H. unfold Next.load_effect. rewrite H.
  rewrite parse_stringify_annotations, annotations_of_to_json by exact Hd.
  now rewrite stringify_annotations.
Qed.

Lemma mount_persisted (imageId : Z) (s : Next.state) :
  Forall (fun a => doubles a = true) (Next.annotations s) ->
  persisted imageId s -> Next.mount imageId (Next.storage s) = Next.Mounted s.
Proof.
  intros Hd H. unfold Next.mount, Next.run_effects.
  rewrite (load_effect_stored _ _ _ Hd H). unfold Next.persist_effect.
  rewrite insert_insert_eq, (insert_id _ _ _ H). now destruct s.
Qed.

(** The numbers of the annotations stay doubles. *)
Lemma updater_keeps_doubles (a : Next.action) (l : list Next.Annotation.t) :
  drags_doubles a = true ->
  Forall (fun a => doubles a = true) l ->
  Forall (fun a => doubles a = true) (Next.updater_of a l).
Proof.
  intros Ha Hl. destruct a as [color now rnd | id | id x y];
    cbn [Next.updater_of].
  - unfold Next.addAnnotation. apply Forall_app. split; [exact Hl |].
    constructor; [vm_compute; reflexivity | constructor].
  - unfold Next.removeAnnotation.
    induction Hl as [|p l Hp _ IH]; [constructor |]. cbn [List.filter].
    destruct (negb (String.eqb (Next.Annotation.id p) id));
      [now constructor | exact IH].
  - unfold Next.onDragEnd. cbn [drags_doubles] in Ha.
    apply andb_prop in Ha as [Hx Hy].
    induction Hl as [|p l Hp _ IH]; [constructor |].
    cbn [List.map]. constructor; [|exact IH].
    destruct (String.eqb (Next.Annotation.id p) id); [|exact Hp].
    unfold doubles in *. cbn [Next.Annotation.x Next.Annotation.y
      Next.Annotation.width Next.Annotation.height].
    apply andb_prop in Hp as [Hp Hh]. apply andb_prop in Hp as [Hp Hw].
    now rewrite Hx, Hy, Hw, Hh.
Qed.

Lemma acts_keep_doubles (imageId : Z) (l : list Next.action)
    (s : Next.state) :
  Forall (fun a => drags_doubles a = true) l ->
  Forall (fun a => doubles a = true) (Next.annotations s) ->
  Forall (fun a => doubles a = true)
    (Next.annotations (Next.acts imageId l s)).
Proof.
  intros Hl. revert s. induction Hl as [|a l Ha _ IH]; intros s Hs;
    [exact Hs |].
  change (Next.acts imageId (a :: l) s)
    with (Next.acts imageId l (Next.act imageId s a)).
  apply IH. now apply updater_keeps_doubles.
Qed.

(** C3, counterexample: the hook of [part_000] stores nothing.  After an
    [add()] its set has one annotation; a restart mounts the hook again,
    which starts from the empty set whatever the storage holds. *)
Lemma part000_restart_forgets :
  let s := Part000.addAnnotation "3f0c" (Part000.mount ∅) in
  Part000.annotations s =
    [ {| Part000.Annotation.id := "3f0c";
         Part000.Annotation.x := 56; Part000.Annotation.y := 56;
         Part000.Annotation.width := 160;
         Part000.Annotation.height := 100 |} ] /\
  Part000.annotations (Part000.mount ∅) = [] /\
  Part000.annotations (Part000.mount ∅) <> Part000.annotations s.
Proof. repeat split. discriminate. Qed.

(** C3, as the code has it.  In [src/next.js], after any sequence of
    mutations of one image's annotation set (add, move, remove) whose
    coordinates are finite numbers, the last of which has completed, the
    stored text is the full set as serialized; a restart, which mounts the
    hook again on that storage and so parses the text, gives the last
    in-memory set back by value and leaves the storage as it is.  In
    [part_000] nothing is stored: a restart gives the empty set, which is
    the last in-memory set only when nothing had been added. *)
Theorem persistence_round_trip (imageId : Z) (s : Next.state)
    (l : list Next.action) (a : Next.action)
    (uuids : list string) (st st' : gmap string string) :
  Forall (fun a => doubles a = true) (Next.annotations s) ->
  Forall (fun a => drags_doubles a = true) (l ++ [a]) ->
  let s' := Next.acts imageId (l ++ [a]) s in
  (persisted imageId s' /\
   Next.load_effect imageId (Next.storage s') =
     Next.Parsed (Next.annotations s') /\
   Next.mount imageId (Next.storage s') = Next.Mounted s') /\
  (Part000.annotations (Part000.mount st') = [] /\
   (Part000.annotations (Part000.mount st') =
      Part000.annotations (Part000.adds uuids (Part000.mount st)) <->
    uuids = [])).
Proof.
  intros Hs Hl s'.
  assert (H : persisted imageId s').
  { unfold s', Next.acts. rewrite fold_left_app.
    apply setAnnotations_persisted. }
  assert (Hd : Forall (fun a => doubles a = true) (Next.annotations s'))
    by now apply acts_keep_doubles.
  split; [split; [|split] | split].
  - exact H.
  - now apply load_effect_stored.
  - now apply mount_persisted.
  - reflexivity.
  - unfold Part000.mount. rewrite adds_eq.
    cbn [Part000.annotations Part000.initial app]. split.
    + intros E. apply (f_equal (@length _)) in E.
      rewrite length_imap in E. now destruct uuids.
    + now intros ->.
Qed.

Lemma persistence_round_trip_witness :
  let s := {| Next.annotations := []; Next.storage := ∅ |} in
  let id := draw_id (1700000000000%N, "0.25") in
  let l := [Next.Add "#ff1744" 1700000000000 "0.25";
            Next.Add "#2979ff" 1700000000001 "0.75";
            Next.Drag id (halves 21) (halves (-401))] in
  let s' := Next.acts 7 (l ++ [Next.Remove "1700000000001-0.75"]) s in
  Next.annotations s' =
    [ {| Next.Annotation.id := id;
         Next.Annotation.x := halves 21; Next.Annotation.y := halves (-401);
         Next.Annotation.width := 160; Next.Annotation.height := 100;
         Next.Annotation.color := "#ff1744" |} ] /\
  Next.mount 7 (Next.storage s') = Next.Mounted s'.
Proof.
  intros s id l s'. split; [reflexivity |].
  apply (persistence_round_trip 7 s l (Next.Remove "1700000000001-0.75")
           [] ∅ ∅).
  - constructor.
  - repeat (constructor; [vm_compute; reflexivity |]). constructor.
Defined.

(** X7. Mounting stores: from the moment the hook is mounted, before any
    mutation and after each one, the text stored under the image's key is
    the text of the set in memory. *)
Lemma mounted_persisted (imageId : Z) (st : gmap string string)
    (s : Next.state) (l : list Next.action) :
  Next.mount imageId st = Next.Mounted s ->
  persisted imageId (Next.acts imageId l s).
Proof.
  intros Hm. destruct l as [|a l] using rev_ind.
  - unfold Next.mount, Next.run_effects in Hm.
    destruct (Next.load_effect imageId st); try discriminate Hm;
      injection Hm as <-; apply lookup_insert_eq.
  - unfold Next.acts. rewrite fold_left_app. apply setAnnotations_persisted.
Qed.

(** ** Loading *)

(** C4, counterexample: on truncated data [JSON.parse] throws, and nothing
    in the hook catches it. *)
Lemma truncated_payload_throws :
  Json.parse truncated_payload = None /\
  Next.load_effect 1 (<[Next.storage_key 1 := truncated_payload]> ∅)
    = Next.SyntaxError /\
  Next.mount 1 (<[Next.storage_key 1 := truncated_payload]> ∅) = Next.Crashed.
Proof. vm_compute. repeat split. Qed.

(** C4, as the code has it: mounting the hook for an image with nothing
    stored under its key gives the empty set (and stores it); when the
    stored text does not parse, the [SyntaxError] of [JSON.parse] leaves the
    load effect. *)
Theorem mount_absent_or_unparsable (imageId : Z) (st : gmap string string) :
  (st !! Next.storage_key imageId = None ->
   Next.mount imageId st =
   Next.Mounted {| Next.annotations := [];
                   Next.storage := <[Next.storage_key imageId := "[]"]> st |})
  /\
  (forall saved : string,
     st !! Next.storage_key imageId = Some saved ->
     saved <> EmptyString ->
     Json.parse saved = None ->
     Next.load_effect imageId st = Next.SyntaxError /\
     Next.mount imageId st = Next.Crashed).
Proof.
  split.
  - intros H. unfold Next.mount, Next.run_effects, Next.load_effect.
    now rewrite H.
  - intros saved H Hne Hp.
    unfold Next.mount, Next.run_effects, Next.load_effect.
    rewrite H, Hp. apply String.eqb_neq in Hne. now rewrite Hne.
Qed.

Lemma mount_absent_or_unparsable_witness :
  Next.mount 1 ∅ =
    Next.Mounted {| Next.annotations := [];
                    Next.storage := <[Next.storage_key 1 := "[]"]> ∅ |} /\
  Next.mount 1 (<[Next.storage_key 1 := truncated_payload]> ∅) = Next.Crashed.
Proof.
  split.
  - apply (proj1 (mount_absent_or_unparsable 1 ∅)). reflexivity.
  - apply (proj2 (mount_absent_or_unparsable 1
                    (<[Next.storage_key 1 := truncated_payload]> ∅))
             truncated_payload).
    + vm_compute. reflexivity.
    + discriminate.
    + vm_compute. reflexivity.
Defined.

(** X5. When the canvas is handed another image that has nothing stored,
    the hook keeps the previous image's annotations and stores them under
    the new image's key. *)
Lemma change_image_keeps_annotations (imageId : Z) (s : Next.state) :
  Next.storage s !! Next.storage_key imageId = None ->
  Next.change_image imageId s =
  Next.Mounted
    {| Next.annotations := Next.annotations s;
       Next.storage :=
         <[Next.storage_key imageId :=
             stringify (Next.annotations_to_json (Next.annotations s))]>
           (Next.storage s) |}.
Proof.
  intros H. unfold Next.change_image, Next.run_effects, Next.load_effect.
  now rewrite H.
Qed.

(** * Further properties of the pages *)

(** ** Removing, and how the operations of the annotation store compose *)


(** X2. Removing the annotation that was just added undoes the addition,
    in memory and in storage, when no annotation of the set had the new id
    and the set was stored. *)
Theorem add_then_remove_undoes (imageId : Z) (s : Next.state)
    (color : string) (now : N) (rnd : string) :
  persisted imageId s ->
  Forall (fun a => Next.Annotation.id a <> draw_id (now, rnd))
    (Next.annotations s) ->
  Next.acts imageId
    [Next.Add color now rnd; Next.Remove (draw_id (now, rnd))] s = s.
Proof.
  intros Hp Hfresh. destruct s as [anns st]. unfold persisted in Hp.
  cbn [Next.annotations Next.storage] in *.
  unfold Next.acts. cbn [fold_left].
  unfold Next.act, Next.setAnnotations.
  cbn [Next.updater_of Next.annotations Next.storage].
  assert (E : Next.removeAnnotation (draw_id (now, rnd))
                (Next.addAnnotation color now rnd anns) = anns).
  { clear Hp. unfold Next.removeAnnotation, Next.addAnnotation.
    rewrite List.filter_app. cbn [List.filter Next.new_annotation
      Next.Annotation.id].
    change (show_N now +:+ String "-" rnd) with (draw_id (now, rnd)).
    rewrite String.eqb_refl. cbn [negb]. rewrite app_nil_r.
    induction Hfresh as [|a l Ha _ IH]; [reflexivity |].
    cbn [List.filter]. apply String.eqb_neq in Ha. rewrite Ha. cbn [negb].
    now rewrite IH. }
  rewrite E. unfold Next.persist_effect.
  now rewrite insert_insert_eq, (insert_id _ _ _ Hp).
Qed.

Lemma add_then_remove_undoes_witness :
  let s := Next.acts 7 [Next.Add "#ff1744" 1700000000000 "0.25"]
             {| Next.annotations := []; Next.storage := ∅ |} in
  Next.acts 7
    [Next.Add "#2979ff" 1700000000001 "0.75";
     Next.Remove (draw_id (1700000000001%N, "0.75"))] s = s.
Proof.
  intros s. apply add_then_remove_undoes.
  - apply setAnnotations_persisted.
  - repeat constructor. discriminate.
Defined.

(** X3. Dragging and removing commute: moving annotation [id] and removing
    annotation [id'] give the same set in either order. *)
Theorem drag_remove_commute (id id' : string) (x y : number)
    (l : list Next.Annotation.t) :
  Next.onDragEnd id x y (Next.removeAnnotation id' l) =
  Next.removeAnnotation id' (Next.onDragEnd id x y l).
Proof.
  unfold Next.onDragEnd, Next.removeAnnotation.
  induction l as [|a l IH]; [reflexivity |].
  cbn [List.filter List.map].
  destruct (String.eqb (Next.Annotation.id a) id) eqn:E1;
    cbn [Next.Annotation.id];
    destruct (negb (String.eqb (Next.Annotation.id a) id'));
    cbn [List.map]; rewrite ?E1, IH; reflexivity.
Qed.

(** ** Storage of several images *)

Lemma storage_key_inj (a b : Z) :
  Next.storage_key a = Next.storage_key b -> a = b.
Proof.
  unfold Next.storage_key. intros H. apply show_Z_inj.
  now injection H.
Qed.

(** X4. The mutations of one image's annotation set write one entry of
    the storage: the stored sets of all other images, and every other
    entry, are left as they are. *)
Theorem other_images_untouched (imageId other : Z) (l : list Next.action)
    (s : Next.state) :
  other <> imageId ->
  Next.storage (Next.acts imageId l s) !! Next.storage_key other =
    Next.storage s !! Next.storage_key other /\
  forall k : string,
    k <> Next.storage_key imageId ->
    Next.storage (Next.acts imageId l s) !! k = Next.storage s !! k.
Proof.
  intros Hne.
  assert (H : forall k : string,
             k <> Next.storage_key imageId ->
             Next.storage (Next.acts imageId l s) !! k = Next.storage s !! k).
  { intros k Hk. revert s. induction l as [|a l IH]; intros s; [reflexivity |].
    change (Next.acts imageId (a :: l) s)
      with (Next.acts imageId l (Next.act imageId s a)).
    rewrite IH. unfold Next.act, Next.setAnnotations, Next.persist_effect.
    cbn [Next.storage]. now apply lookup_insert_ne. }
  split; [|exact H]. apply H. intros E. apply Hne.
  now apply storage_key_inj.
Qed.

Lemma other_images_untouched_witness :
  let s := {| Next.annotations := [];
              Next.storage := {[ Next.storage_key 2 := "[]" ]} |} in
  Next.storage (Next.acts 1 [Next.Add "#ff1744" 1700000000000 "0.25"] s)
    !! Next.storage_key 2 = Some "[]".
Proof.
  intros s.
  rewrite (proj1 (other_images_untouched 1 2
                    [Next.Add "#ff1744" 1700000000000 "0.25"] s
                    ltac:(discriminate))).
  apply lookup_singleton_eq.
Defined.

(** ** The canvas is handed another image *)

(** X6. When the canvas is handed another image whose stored text is one
    the hook wrote, [JSON.stringify] of a set with finite coordinates, the
    hook takes that set; the previous image's set is written under the new
    image's key by the second effect and overwritten again on the next
    render, so the storage ends as it was. *)
Theorem change_image_loads_stored (imageId : Z) (s : Next.state)
    (l : list Next.Annotation.t) :
  Forall (fun a => doubles a = true) l ->
  Next.storage s !! Next.storage_key imageId =
    Some (stringify (Next.annotations_to_json l)) ->
  Next.change_image imageId s =
  Next.Mounted {| Next.annotations := l; Next.storage := Next.storage s |}.
Proof.
  intros Hd H. unfold Next.change_image, Next.run_effects.
  rewrite (load_effect_stored _ _ _ Hd H). unfold Next.persist_effect.
  now rewrite insert_insert_eq, (insert_id _ _ _ H).
Qed.

Lemma change_image_loads_stored_witness :
  let a := {| Next.Annotation.id := "1700000000000-0.25";
              Next.Annotation.x := halves 21; Next.Annotation.y := 60;
              Next.Annotation.width := 160; Next.Annotation.height := 100;
              Next.Annotation.color := "#ff1744" |} in
  let b := Next.new_annotation "#2979ff" 1700000000001 "0.75" in
  let s := {| Next.annotations := [b];
              Next.storage :=
                {[ Next.storage_key 2 :=
                     stringify (Next.annotations_to_json [a]) ]} |} in
  Next.change_image 2 s =
  Next.Mounted {| Next.annotations := [a]; Next.storage := Next.storage s |}.
Proof.
  intros a b s. apply change_image_loads_stored.
  - constructor; [vm_compute; reflexivity | constructor].
  - apply lookup_singleton_eq.
Defined.

(** ** Deletes that overlap *)

(** X9. Two overlapping deletes that both fail: when the failures arrive
    in the order of the requests, the second rollback writes the second
    snapshot, so the image of the first delete stays out of the cached list
    although its delete failed; when they arrive in the opposite order the
    whole list is back. *)
Theorem overlapping_failures (items : list ImageItem.t) (id1 id2 : Z) :
  let s0 := Mutation.idle (Some items) in
  let without1 :=
    List.filter (fun i => negb (ImageItem.id i =? id1)) items in
  (data (Mutation.query
           (Mutation.run Next.deleteImage
              [Mutation.Mutate id1; Mutation.Mutate id2;
               Mutation.Settle 0 false; Mutation.Settle 0 false] s0))
     = Some without1 /\
   data (Mutation.query
           (Mutation.run Next.deleteImage
              [Mutation.Mutate id1; Mutation.Mutate id2;
               Mutation.Settle 1 false; Mutation.Settle 0 false] s0))
     = Some items) /\
  (data (Mutation.query
           (Mutation.run Part000.deleteImage
              [Mutation.Mutate id1; Mutation.Mutate id2;
               Mutation.Settle 0 false; Mutation.Settle 0 false] s0))
     = Some without1 /\
   data (Mutation.query
           (Mutation.run Part000.deleteImage
              [Mutation.Mutate id1; Mutation.Mutate id2;
               Mutation.Settle 1 false; Mutation.Settle 0 false] s0))
     = Some items).
Proof. repeat split. Qed.

(** X10. The optimistic removal: as soon as [delete(id)] is issued the
    cached list holds exactly the images with another id, in their order,
    and it is the list itself when no image has the id; a successful delete
    leaves that list in the cache. *)
Theorem optimistic_removal (items : list ImageItem.t) (id : Z) (n : nat)
    (reqs : list Z) (others : list Mutation.flight) :
  let s := {| Mutation.query := {| data := Some items; refetches := n |};
              Mutation.requests := reqs; Mutation.active := others |} in
  let left := List.filter (fun i => negb (ImageItem.id i =? id)) items in
  (forall i, In i left <-> In i items /\ ImageItem.id i <> id) /\
  sublist left items /\
  (Forall (fun i => ImageItem.id i <> id) items -> left = items) /\
  data (Mutation.query (Mutation.mutate Next.deleteImage id s)) = Some left /\
  data (Mutation.query (Mutation.mutate Part000.deleteImage id s))
    = Some left /\
  data (Mutation.query (Mutation.delete Next.deleteImage id true s))
    = Some left /\
  data (Mutation.query (Mutation.delete Part000.deleteImage id true s))
    = Some left.
Proof.
  intros s left. split; [|split; [|split]].
  - intros i. unfold left.
    rewrite filter_In, Bool.negb_true_iff, Z.eqb_neq. reflexivity.
  - unfold left. clear s. induction items as [|i l IH]; [constructor |].
    cbn [List.filter]. destruct (negb (ImageItem.id i =? id)).
    + now apply sublist_skip.
    + now apply sublist_cons.
  - intros H. unfold left. clear s left.
    induction H as [|i l Hi _ IH]; [reflexivity |].
    cbn [List.filter]. apply Z.eqb_neq in Hi. rewrite Hi. cbn [negb].
    now rewrite IH.
  - rewrite !delete_unfold. repeat split.
Qed.

(** X11. A delete that fails while no list is cached: [src/next.js] leaves
    the cache without data, [part_000] leaves the empty list that its
    [onMutate] wrote, since there is no snapshot to put back. *)
Theorem failed_delete_without_data (id : Z) (n : nat) (reqs : list Z)
    (others : list Mutation.flight) :
  let s := {| Mutation.query := {| data := None; refetches := n |};
              Mutation.requests := reqs; Mutation.active := others |} in
  data (Mutation.query (Mutation.delete Next.deleteImage id false s))
    = None /\
  data (Mutation.query (Mutation.delete Part000.deleteImage id false s))
    = Some [].
Proof. intros s. rewrite !delete_unfold. split; reflexivity. Qed.

(** ** What a failed load shows *)

(** X12. The text of [part_000]'s own validation error never reaches the
    user: when the first three responses carry bodies that are no arrays,
    the load gives up after two retries with that error, and the page shows
    the fixed text "Something went wrong". *)
Theorem validation_message_is_not_shown (responses : nat -> response)
    (extra : nat) (before : cache) (response_message : option string) :
  (forall k, (k < 3)%nat ->
             exists body, responses k = Resolves body /\ isArray body = false)
  ->
  exists e,
    Retryer.run Part000.retry (fun k => Part000.fetchImages (responses k))
      (3 + extra) 0 = Some (Rejected e, 2%nat) /\
    e = Error "Images response is not an array" /\
    Part000.PageContent (failed_query before response_message e) =
      ErrorText "Something went wrong".
Proof.
  intros H.
  destruct (H 0%nat ltac:(lia)) as (b0 & E0 & A0).
  destruct (H 1%nat ltac:(lia)) as (b1 & E1 & A1).
  destruct (H 2%nat ltac:(lia)) as (b2 & E2 & A2).
  eexists. split; [|split; [reflexivity |]].
  - cbn [Nat.add Retryer.run Part000.retry Nat.ltb Nat.leb].
    unfold Part000.fetchImages. rewrite E0, A0, E1, A1, E2, A2. reflexivity.
  - unfold Part000.PageContent. cbn. now destruct before.
Qed.

Lemma validation_message_is_not_shown_witness :
  exists e,
    Retryer.run Part000.retry
      (fun k => Part000.fetchImages ((fun _ => Resolves (JObj [])) k))
      (3 + 0) 0 = Some (Rejected e, 2%nat) /\
    e = Error "Images response is not an array" /\
    Part000.PageContent (failed_query None None e) =
      ErrorText "Something went wrong".
Proof.
  apply (validation_message_is_not_shown (fun _ => Resolves (JObj []))).
  intros k _. exists (JObj []). split; reflexivity.
Defined.

(** X13. After three transport failures [part_000] shows the message of the
    last one, or the message of the server's response when it sent a
    non-empty one; never its fixed fallback text. *)
Theorem transport_message_is_shown (responses : nat -> response)
    (m0 m1 m2 : string) (extra : nat) (before : cache)
    (response_message : option string) :
  responses 0%nat = Rejects m0 ->
  responses 1%nat = Rejects m1 ->
  responses 2%nat = Rejects m2 ->
  Retryer.run Part000.retry (fun k => Part000.fetchImages (responses k))
    (3 + extra) 0 = Some (Rejected (AxiosError m2), 2%nat) /\
  Part000.PageContent
    (failed_query before response_message (AxiosError m2)) =
    ErrorText (or_else response_message m2) /\
  Part000.PageContent (failed_query before None (AxiosError m2)) =
    ErrorText m2 /\
  Next.Content (failed_query before response_message (AxiosError m2)) =
    ErrorText (or_else response_message m2).
Proof.
  intros E0 E1 E2. split; [|split; [|split]].
  - cbn [Nat.add Retryer.run Part000.retry Nat.ltb Nat.leb].
    unfold Part000.fetchImages. now rewrite E0, E1, E2.
  - unfold Part000.PageContent. cbn. now destruct before.
  - unfold Part000.PageContent. cbn. now destruct before.
  - reflexivity.
Qed.

Lemma transport_message_is_shown_witness :
  Part000.PageContent
    (failed_query None (Some "quota exceeded")
       (AxiosError "Request failed with status code 429")) =
  ErrorText "quota exceeded".
Proof.
  apply (transport_message_is_shown
           (fun _ => Rejects "Request failed with status code 429")
           "Request failed with status code 429"
           "Request failed with status code 429"
           "Request failed with status code 429" 0 None
           (Some "quota exceeded") eq_refl eq_refl eq_refl).
Defined.

(** X18. [PageContent] of [part_000] renders for every state of the query,
    showing the list only when data is there and no error is set;
    [Content] of [src/next.js] reads the length of missing data, and so
    throws, exactly when the query is neither loading nor failed and has no
    data. *)
Theorem views_without_data (q : Query.t) :
  Part000.PageContent q <> TypeError /\
  (forall items canvas,
     Part000.PageContent q = Shown items canvas ->
     Query.data q = Some items /\ Query.isError q = false /\
     canvas = head items) /\
  (Next.Content q = TypeError <->
   Query.isLoading q = false /\ Query.isError q = false /\
   Query.data q = None).
Proof.
  destruct q as [[] [] e [items|]]; cbn; repeat split;
    try discriminate; try congruence;
    try (intros (? & ? & ?); discriminate);
    try (intros ? ? [= <- <-]; repeat split).
Qed.

(** ** The grid *)

Lemma ceil_div_3 (n : nat) :
  (3 * ceil_div n 3 < n + 3 /\ n <= 3 * ceil_div n 3)%nat.
Proof.
  unfold ceil_div.
  pose proof (Nat.div_mod_eq n 3) as H.
  pose proof (Nat.mod_upper_bound n 3 ltac:(lia)) as Hm.
  destruct (Nat.eqb_spec (n mod 3) 0); lia.
Qed.

(** X14. The grid shows every image exactly once, in the order of the
    list: image [i] is in row [i / 3], column [i mod 3], inside the grid,
    and in no other cell; a cell of the grid that renders nothing lies in
    the last row, and an empty list gives no row. *)
Theorem grid_shows_every_image_once (items : list ImageItem.t) :
  (forall i, (i < length items)%nat ->
     (i / 3 < rowCount items)%nat /\ (i mod 3 < columnCount)%nat /\
     cell items (i / 3) (i mod 3) = items !! i /\
     forall r c, (c < columnCount)%nat ->
                 (r * columnCount + c)%nat = i ->
                 r = (i / 3)%nat /\ c = (i mod 3)%nat) /\
  (forall r c, (r < rowCount items)%nat -> (c < columnCount)%nat ->
     cell items r c = None -> S r = rowCount items) /\
  (forall r c, (rowCount items <= r)%nat -> cell items r c = None) /\
  (rowCount items = 0%nat <-> items = []).
Proof.
  unfold rowCount, cell, columnCount.
  destruct (ceil_div_3 (length items)) as [Hup Hlo].
  split; [|split; [|split]].
  - intros i Hi.
    pose proof (Nat.div_mod_eq i 3) as H.
    pose proof (Nat.mod_upper_bound i 3 ltac:(lia)) as Hm.
    split; [lia |]. split; [lia |]. split; [f_equal; lia |].
    intros r c Hc Hrc. lia.
  - intros r c Hr Hc Hnone. apply lookup_ge_None in Hnone. nia.
  - intros r c Hr. apply lookup_ge_None. nia.
  - split.
    + intros H0. apply length_zero_iff_nil. lia.
    + intros ->. reflexivity.
Qed.

(** ** The confirm dialog *)

(** X15. Asking to delete image [id] and confirming closes the dialog and
    issues one delete request for [id]; in [src/next.js] it issues none when
    [id] is 0, since [if (selected)] takes 0 for nothing selected.  Cancelling
    issues nothing, and confirming again once the dialog has closed issues
    nothing more. *)
Theorem confirm_issues_delete (p : page) (id : Z) :
  (selected (Next.handle (Next.handle p (RequestDelete id)) ConfirmDelete)
     = None /\
   Mutation.requests
     (deletes (Next.handle (Next.handle p (RequestDelete id)) ConfirmDelete))
     = Mutation.requests (deletes p) ++ (if id =? 0 then [] else [id]) /\
   deletes (Next.handle (Next.handle p (RequestDelete id)) CancelDelete)
     = deletes p /\
   Next.onConfirm (Next.onConfirm p) = Next.onConfirm p) /\
  (selected (Part000.handle (Part000.handle p (RequestDelete id))
               ConfirmDelete) = None /\
   Mutation.requests
     (deletes (Part000.handle (Part000.handle p (RequestDelete id))
                 ConfirmDelete))
     = Mutation.requests (deletes p) ++ [id] /\
   deletes (Part000.handle (Part000.handle p (RequestDelete id)) CancelDelete)
     = deletes p /\
   Part000.onConfirm (Part000.onConfirm p) = Part000.onConfirm p).
Proof.
  split.
  - split; [reflexivity |]. split; [|split; [reflexivity |]].
    + cbn. destruct (id =? 0); [now rewrite app_nil_r | reflexivity].
    + reflexivity.
  - split; [reflexivity |]. split; [reflexivity |]. split; [reflexivity |].
    destruct p as [[z|] d]; reflexivity.
Qed.

(** ** Loading the image of the canvas *)

Lemma cancel_last_snoc (before : list loader) (l : loader) :
  Part000.cancel_last (before ++ [l]) =
  before ++ [{| loader_src := loader_src l; cancelled := true |}].
Proof.
  unfold Part000.cancel_last.
  now rewrite List.rev_unit, List.rev_involutive.
Qed.

Lemma canvas_step_keeps (c : canvas) (e : canvas_event) :
  one_live_loader c -> one_live_loader (Part000.canvas_step c e).
Proof.
  intros (before & Hl & Hc). destruct e as [s | k]; cbn [Part000.canvas_step].
  - unfold Part000.change_src. destruct (String.eqb s (src c)).
    + now exists before.
    + exists (before ++ [{| loader_src := src c; cancelled := true |}]).
      cbn [src loaders]. rewrite Hl, cancel_last_snoc. split; [reflexivity |].
      apply Forall_app. split; [exact Hc |]. now repeat constructor.
  - unfold Part000.onload.
    destruct (loaders c !! k) as [l|]; [|now exists before].
    destruct (cancelled l); now exists before.
Qed.

Lemma canvas_run_keeps (events : list canvas_event) (c : canvas) :
  one_live_loader c ->
  one_live_loader (fold_left Part000.canvas_step events c).
Proof.
  revert c. induction events as [|e events IH]; intros c H; [exact H |].
  cbn [fold_left]. now apply IH, canvas_step_keeps.
Qed.

(** X16. In [part_000], whatever images the canvas has been handed and
    whatever has loaded so far: every image element but the one created last
    has been cancelled, and its load changes nothing; the element created
    last is the one of the current [src], and its load shows that image.
    So an image that loads either changes nothing or is the image of the
    current [src], and the [src] itself is never changed by a load. *)
Theorem stale_load_is_ignored (s0 : string) (events : list canvas_event)
    (k : nat) :
  let c := fold_left Part000.canvas_step events (mount_canvas s0) in
  let last := (length (loaders c) - 1)%nat in
  one_live_loader c /\
  (k <> last -> Part000.onload k c = c) /\
  Part000.onload last c =
    {| src := src c; img := Some (src c); loaders := loaders c |} /\
  (Part000.onload k c = c \/ img (Part000.onload k c) = Some (src c)) /\
  src (Part000.onload k c) = src c.
Proof.
  intros c last.
  assert (H : one_live_loader c).
  { apply canvas_run_keeps. exists []. split; [reflexivity | constructor]. }
  split; [exact H |].
  destruct H as (before & Hl & Hc).
  assert (Hlast : last = length before).
  { unfold last. rewrite Hl, length_app. cbn [length]. lia. }
  assert (Hstale : k <> last -> Part000.onload k c = c).
  { intros Hk. unfold Part000.onload. rewrite Hl.
    destruct (decide (k < length before)%nat) as [Hlt | Hge].
    - rewrite lookup_app_l by exact Hlt.
      destruct (before !! k) as [l|] eqn:E; [|reflexivity].
      now rewrite (proj1 (Forall_lookup _ _) Hc k l E).
    - rewrite lookup_app_r by lia.
      destruct (k - length before)%nat as [|j] eqn:Ej; [lia | reflexivity]. }
  assert (Hlive : Part000.onload last c =
                  {| src := src c; img := Some (src c);
                     loaders := loaders c |}).
  { unfold Part000.onload. rewrite Hlast, Hl, list_lookup_middle by reflexivity.
    reflexivity. }
  split; [exact Hstale |]. split; [exact Hlive |].
  destruct (decide (k = last)) as [-> | Hk].
  - rewrite Hlive. split; [now right | reflexivity].
  - rewrite (Hstale Hk). split; [now left | reflexivity].
Qed.

(** X17. In [src/next.js] no load is ignored: when the canvas goes from
    one image to another and the first image loads after the second, the
    canvas shows the first image, which is no longer its [src]. *)
Theorem late_load_replaces_image (s0 s1 : string) :
  s1 <> s0 ->
  let c := fold_left Next.canvas_step
             [ChangeSrc s1; Onload 1; Onload 0] (mount_canvas s0) in
  src c = s1 /\ img c = Some s0 /\
  img (fold_left Part000.canvas_step
         [ChangeSrc s1; Onload 1; Onload 0] (mount_canvas s0)) = Some s1.
Proof.
  intros Hne c. unfold c. cbn [fold_left Next.canvas_step Part000.canvas_step].
  unfold Next.change_src, Part000.change_src. cbn [mount_canvas src].
  apply String.eqb_neq in Hne. rewrite Hne. repeat split.
Qed.

Lemma late_load_replaces_image_witness :
  img (fold_left Next.canvas_step
         [ChangeSrc "/img/2"; Onload 1; Onload 0] (mount_canvas "/img/1"))
  = Some "/img/1".
Proof.
  apply (late_load_replaces_image "/img/1" "/img/2"). discriminate.
Defined.

(** ** The first good response *)

(** X19. The load of [part_000] returns the first body that is an array,
    if it comes within the first three responses, after as many retries as
    there were failures before it. *)
Theorem first_array_response_is_the_list (responses : nat -> response)
    (k : nat) (body : json) (extra : nat) :
  (k <= 2)%nat ->
  responses k = Resolves body ->
  isArray body = true ->
  (forall j, (j < k)%nat ->
     exists e, Part000.fetchImages (responses j) = Rejected e) ->
  Retryer.run Part000.retry (fun i => Part000.fetchImages (responses i))
    (3 + extra) 0 = Some (Resolved body, k).
Proof.
  intros Hk Hr Ha Hfail.
  assert (Hok : Part000.fetchImages (responses k) = Resolved body).
  { unfold Part000.fetchImages. now rewrite Hr, Ha. }
  cbn [Nat.add Retryer.run Part000.retry Nat.ltb Nat.leb].
  destruct k as [|[|[|k]]]; [| | |lia].
  - now rewrite Hok.
  - destruct (Hfail 0%nat ltac:(lia)) as (e0 & E0). now rewrite E0, Hok.
  - destruct (Hfail 0%nat ltac:(lia)) as (e0 & E0).
    destruct (Hfail 1%nat ltac:(lia)) as (e1 & E1).
    now rewrite E0, E1, Hok.
Qed.

Lemma first_array_response_is_the_list_witness :
  Retryer.run Part000.retry
    (fun i => Part000.fetchImages
                ((fun j => if (j =? 1)%nat then Resolves (JArr [])
                           else Rejects "timeout of 8000ms exceeded") i))
    (3 + 0) 0 = Some (Resolved (JArr []), 1%nat).
Proof.
  apply (first_array_response_is_the_list
           (fun j => if (j =? 1)%nat then Resolves (JArr [])
                     else Rejects "timeout of 8000ms exceeded")
           1 (JArr []) 0).
  - lia.
  - reflexivity.
  - reflexivity.
  - intros j Hj. assert (j = 0%nat) as -> by lia.
    eexists. reflexivity.
Defined.

(** ** Deleting the image under the canvas *)

(** X20. The canvas shows the first image of the cached list; as soon as
    that image's delete is issued, before any answer, the canvas is handed
    the second image. *)
Theorem deleting_first_image_switches_canvas (a b : ImageItem.t)
    (rest : list ImageItem.t) (n : nat) (reqs : list Z)
    (others : list Mutation.flight) :
  ImageItem.id b <> ImageItem.id a ->
  let s := {| Mutation.query :=
                {| data := Some (a :: b :: rest); refetches := n |};
              Mutation.requests := reqs; Mutation.active := others |} in
  let ready (st : Mutation.store) :=
    {| Query.isLoading := false; Query.isError := false;
       Query.error := ThrownOther;
       Query.data := data (Mutation.query st) |} in
  let left :=
    List.filter (fun i => negb (ImageItem.id i =? ImageItem.id a)) rest in
  Next.Content (ready s) = Shown (a :: b :: rest) (Some a) /\
  Next.Content (ready (Mutation.mutate Next.deleteImage (ImageItem.id a) s))
    = Shown (b :: left) (Some b) /\
  Part000.PageContent (ready s) = Shown (a :: b :: rest) (Some a) /\
  Part000.PageContent
    (ready (Mutation.mutate Part000.deleteImage (ImageItem.id a) s))
    = Shown (b :: left) (Some b).
Proof.
  intros Hne s ready left. apply Z.eqb_neq in Hne.
  split; [reflexivity |]. split; [|split; [reflexivity |]].
  - unfold Next.Content. cbn. now rewrite Z.eqb_refl, Hne.
  - unfold Part000.PageContent. cbn. now rewrite Z.eqb_refl, Hne.
Qed.

Lemma deleting_first_image_switches_canvas_witness :
  Next.Content
    {| Query.isLoading := false; Query.isError := false;
       Query.error := ThrownOther;
       Query.data :=
         data (Mutation.query
                 (Mutation.mutate Next.deleteImage 1
                    (Mutation.idle (Some [image 1; image 2; image 3])))) |}
  = Shown [image 2; image 3] (Some (image 2)).
Proof.
  apply (deleting_first_image_switches_canvas (image 1) (image 2) [image 3]
           0 [] []).
  discriminate.
Defined.

(** ** Witnesses *)

Lemma change_image_keeps_annotations_witness :
  let a := Next.new_annotation "#ff1744" 1700000000000 "0.25" in
  Next.change_image 2 {| Next.annotations := [a]; Next.storage := ∅ |} =
  Next.Mounted
    {| Next.annotations := [a];
       Next.storage :=
         <[Next.storage_key 2 := stringify (Next.annotations_to_json [a])]>
           ∅ |}.
Proof.
  intros a.
  apply (change_image_keeps_annotations 2
           {| Next.annotations := [a]; Next.storage := ∅ |}).
  reflexivity.
Defined.

Lemma mounted_persisted_witness :
  persisted 1
    (Next.acts 1 []
       {| Next.annotations := [];
          Next.storage := <[Next.storage_key 1 := "[]"]> ∅ |}).
Proof.
  apply (mounted_persisted 1 ∅). reflexivity.
Defined.
